(** * stakemachine: the order ledger of [BaseStrategy]

    A shallow embedding of [src/stakemachine/strategies/basestrategy.py]:
    the ledger [state["orders"]], reconciliation ([loadMarket]), placement
    bookkeeping ([store]) and the cancellation family ([_cancel_set],
    [cancel_all], [cancel_mine], [cancel_this_markets] and the aliases).

    Python dictionaries with string keys are [gmap string _], Python lists
    are [list], the set [toCancel] is a [gset string].  Methods that mutate
    [self] run in a state-and-exception monad over the record [Bot]; an
    exception leaves the mutations done so far in place, as in Python. *)

From stdpp Require Import base option list gmap sets strings.

Open Scope string_scope.
Open Scope list_scope.

(** ** Data *)

(** One record of [dex.returnOpenOrders()[m]]; the code reads the keys
    ["type"] and ["orderNumber"] only. *)
Record Order := mkOrder {
  o_type : string;
  orderNumber : string
}.

(** The exchange gateway ([self.dex]) as seen during one method call.  Its
    implementation is outside the repository; a call observes one snapshot.
    [cancel_raises id] tells whether [dex.cancel(id)] raises an
    [Exception]. *)
Record Dex := mkDex {
  returnOpenOrders : gmap string (list Order);
  returnOpenOrdersIds : gmap string (list string);
  cancel_raises : string → bool
}.

(** [self.settings["markets"]] and [self.config.safe_mode]. *)
Record Settings := mkSettings {
  markets : list string;
  safe_mode : bool
}.

(** What the strategy does that is visible from outside the ledger: gateway
    cancel requests, the critical log line of the [except] branch, the three
    overridable callbacks. *)
Inductive Event :=
  | DexCancel (orderid : string)
  | LogCritical (orderid : string)
  | OrderCanceled (orderid : string)
  | OrderFilled (orderid : string)
  | OrderPlaced (orderid : string).

(** The mutable part of a [BaseStrategy] instance.  [orders] is
    [self.state["orders"]]; [opened_orders] is [self.opened_orders] (the
    constructor's [[]] answers every [in] test like the empty dictionary);
    [events] is the trace, oldest first; [disk] is what [self.storage] holds. *)
Record Bot := mkBot {
  orders : gmap string (list string);
  opened_orders : gmap string (list string);
  events : list Event;
  disk : option (gmap string (list string))
}.

Definition set_orders (f : gmap string (list string) → gmap string (list string))
    (b : Bot) : Bot :=
  mkBot (f (orders b)) (opened_orders b) (events b) (disk b).

Definition set_opened_orders (o : gmap string (list string)) (b : Bot) : Bot :=
  mkBot (orders b) o (events b) (disk b).

Definition add_event (e : Event) (b : Bot) : Bot :=
  mkBot (orders b) (opened_orders b) (events b ++ [e]) (disk b).

Definition set_disk (d : gmap string (list string)) (b : Bot) : Bot :=
  mkBot (orders b) (opened_orders b) (events b) (Some d).

(** ** Python values the code relies on *)

Inductive PyExc :=
  | KeyError (key : string).

(** The [markets] argument of the cancel methods: the default [None], a
    string (what the side-named aliases pass) or a list of market names. *)
Inductive PyMarkets :=
  | MNone
  | MStr (s : string)
  | MList (l : list string).

(** [not markets]. *)
Definition py_falsy (ms : PyMarkets) : bool :=
  match ms with
  | MNone => true
  | MStr s => bool_decide (s = "")
  | MList l => bool_decide (l = [])
  end.

(** Iterating a string yields its characters as strings of length one. *)
Fixpoint py_chars (s : string) : list string :=
  match s with
  | EmptyString => []
  | String c s' => String c EmptyString :: py_chars s'
  end.

(** [for m in markets]. *)
Definition py_iter (ms : PyMarkets) : list string :=
  match ms with
  | MNone => []
  | MStr s => py_chars s
  | MList l => l
  end.

(** [l.remove(x)]: drops the first occurrence.  Python raises [ValueError]
    when there is none; every call in the source sits behind [if x in l]. *)
Fixpoint py_remove (x : string) (l : list string) : list string :=
  match l with
  | [] => []
  | y :: l' => if decide (x = y) then l' else y :: py_remove x l'
  end.

(** [if x in l: l.remove(x)]. *)
Definition remove_if_in (x : string) (l : list string) : list string :=
  if bool_decide (x ∈ l) then py_remove x l else l.

(** ** The monad of methods *)

Definition Py (A : Type) : Type := Bot → (PyExc + A) * Bot.

Definition py_ret {A} (a : A) : Py A := λ b, (inr a, b).

Definition py_bind {A B} (m : Py A) (k : A → Py B) : Py B :=
  λ b, match m b with
       | (inl e, b') => (inl e, b')
       | (inr a, b') => k a b'
       end.

Definition py_raise {A} (e : PyExc) : Py A := λ b, (inl e, b).

Definition py_get : Py Bot := λ b, (inr b, b).

Definition py_modify (f : Bot → Bot) : Py unit := λ b, (inr tt, f b).

Declare Scope py_scope.
Delimit Scope py_scope with py.
Notation "x <- m ;; k" := (py_bind m (λ x, k))
  (at level 100, m at next level, right associativity) : py_scope.
Notation "m ;;; k" := (py_bind m (λ _, k))
  (at level 100, right associativity) : py_scope.
Open Scope py_scope.

Definition emit (e : Event) : Py unit := py_modify (add_event e).

Definition py_when (c : bool) (m : Py unit) : Py unit :=
  if c then m else py_ret tt.

(** [d[k]] on a dictionary. *)
Definition py_getitem {V} (d : gmap string V) (k : string) : Py V :=
  match d !! k with
  | Some v => py_ret v
  | None => py_raise (KeyError k)
  end.

(** [for x in l: body(x)] over a list the body does not touch. *)
Fixpoint py_for {A} (l : list A) (body : A → Py unit) : Py unit :=
  match l with
  | [] => py_ret tt
  | x :: l' => body x ;;; py_for l' body
  end.

(** [for x in l: body(x)] over a list object the body may mutate.  The list
    iterator keeps an index [i] and, at each step, reads the current list
    [cur b]: it stops when [i] is past the end, else yields the item at [i]
    and moves to [i + 1]. *)
Fixpoint py_for_live (fuel i : nat) (cur : Bot → list string)
    (body : string → Py unit) : Py unit :=
  match fuel with
  | O => py_ret tt
  | S fuel' =>
      b <- py_get ;;
      match cur b !! i with
      | None => py_ret tt
      | Some x => body x ;;; py_for_live fuel' (S i) cur body
      end
  end.

(** The loop [for x in l] started on the list object [cur] denotes now.  The
    bodies below never lengthen that list, so its length at loop entry bounds
    the number of iterations (see [loadMarket_scan_fuel]). *)
Definition py_for_list (cur : Bot → list string) (body : string → Py unit)
    : Py unit :=
  b <- py_get ;; py_for_live (length (cur b)) 0 cur body.

(** ** Batch cancellation *)

(** [for m in self.state["orders"]: if orderId in ...[m]: ...[m].remove(orderId)].
    The per-market updates are independent, so the dictionary's iteration
    order does not show. *)
Definition forget_order (orderId : string)
    (os : gmap string (list string)) : gmap string (list string) :=
  remove_if_in orderId <$> os.

(** The body of [_cancel_set], with the counter [numCanceled] threaded. *)
Fixpoint cancel_loop (dex : Dex) (ids : list string) (numCanceled : nat)
    : Py nat :=
  match ids with
  | [] => py_ret numCanceled
  | orderId :: rest =>
      emit (DexCancel orderId) ;;;
      py_when (cancel_raises dex orderId) (emit (LogCritical orderId)) ;;;
      emit (OrderCanceled orderId) ;;;
      py_modify (set_orders (forget_order orderId)) ;;;
      cancel_loop dex rest (S numCanceled)
  end.

(** [_cancel_set(toCancel)].  A Python set is iterated in an order of its
    own; [elements] fixes one. *)
Definition _cancel_set (dex : Dex) (toCancel : gset string) : Py nat :=
  cancel_loop dex (elements toCancel) 0.

(** ** Cancellation scopes *)

Section Scopes.

(** [a is b] on two strings: object identity, which the interpreter
    decides (interning); nothing below depends on how. *)
Variable py_is : string → string → bool.

(** [o["type"] is side or side is "both"]. *)
Definition side_matches (ty side : string) : bool :=
  py_is ty side || py_is side "both".

(** [if not markets: markets = self.settings["markets"]], then the
    sequence [for m in markets] walks. *)
Definition effective_markets (cfg : Settings) (ms : PyMarkets) : list string :=
  if py_falsy ms then markets cfg else py_iter ms.

(** Inner loop of [cancel_all] and [cancel_this_markets]. *)
Definition add_side (side : string) (toCancel : gset string)
    (os : list Order) : gset string :=
  foldl (λ acc o,
           if side_matches (o_type o) side then acc ∪ {[orderNumber o]}
           else acc) toCancel os.

(** Inner loop of [cancel_mine] for market [m]. *)
Definition add_mine (state_orders : gmap string (list string))
    (m side : string) (toCancel : gset string) (os : list Order)
    : gset string :=
  foldl (λ acc o,
           match state_orders !! m with
           | None => acc
           | Some mine =>
               if bool_decide (orderNumber o ∈ mine)
               then if side_matches (o_type o) side
                    then acc ∪ {[orderNumber o]} else acc
               else acc
           end) toCancel os.

(** Outer loop of [cancel_all]: [if m in curOrders] guards the lookup. *)
Fixpoint cancel_all_plan (curOrders : gmap string (list Order))
    (side : string) (ms : list string) (toCancel : gset string)
    : gset string :=
  match ms with
  | [] => toCancel
  | m :: ms' =>
      match curOrders !! m with
      | Some os => cancel_all_plan curOrders side ms' (add_side side toCancel os)
      | None => cancel_all_plan curOrders side ms' toCancel
      end
  end.

(** Outer loop of [cancel_mine]: [curOrders[m]] is read unguarded. *)
Fixpoint cancel_mine_plan (curOrders : gmap string (list Order))
    (state_orders : gmap string (list string)) (side : string)
    (ms : list string) (toCancel : gset string) : PyExc + gset string :=
  match ms with
  | [] => inr toCancel
  | m :: ms' =>
      match curOrders !! m with
      | Some os =>
          cancel_mine_plan curOrders state_orders side ms'
            (add_mine state_orders m side toCancel os)
      | None => inl (KeyError m)
      end
  end.

(** Outer loop of [cancel_this_markets]: [orders[m]] is read unguarded. *)
Fixpoint cancel_this_markets_plan (curOrders : gmap string (list Order))
    (side : string) (ms : list string) (toCancel : gset string)
    : PyExc + gset string :=
  match ms with
  | [] => inr toCancel
  | m :: ms' =>
      match curOrders !! m with
      | Some os =>
          cancel_this_markets_plan curOrders side ms' (add_side side toCancel os)
      | None => inl (KeyError m)
      end
  end.

Definition cancel_all (cfg : Settings) (dex : Dex) (ms : PyMarkets)
    (side : string) : Py nat :=
  _cancel_set dex
    (cancel_all_plan (returnOpenOrders dex) side (effective_markets cfg ms) ∅).

Definition cancel_mine (cfg : Settings) (dex : Dex) (ms : PyMarkets)
    (side : string) : Py nat :=
  state <- py_get ;;
  match cancel_mine_plan (returnOpenOrders dex) (orders state) side
          (effective_markets cfg ms) ∅ with
  | inl e => py_raise e
  | inr toCancel => _cancel_set dex toCancel
  end.

Definition cancel_this_markets (cfg : Settings) (dex : Dex) (ms : PyMarkets)
    (side : string) : Py nat :=
  match cancel_this_markets_plan (returnOpenOrders dex) side
          (effective_markets cfg ms) ∅ with
  | inl e => py_raise e
  | inr toCancel => _cancel_set dex toCancel
  end.

(** [return self.cancel_all("sell")]: one positional argument, which binds
    to [markets]; [side] keeps its default. *)
Definition cancel_all_sell_orders (cfg : Settings) (dex : Dex) : Py nat :=
  cancel_all cfg dex (MStr "sell") "both".

End Scopes.

(** ** Placement bookkeeping *)

(** [market not in self.opened_orders or orderid not in self.opened_orders[market]]. *)
Definition newly_opened (opened : gmap string (list string))
    (market orderid : string) : bool :=
  match opened !! market with
  | None => true
  | Some prev => bool_decide (orderid ∉ prev)
  end.

(** [myorders[market].append(orderid)]. *)
Definition append_order (market orderid : string)
    (os : gmap string (list string)) : gmap string (list string) :=
  alter (λ l, l ++ [orderid]) market os.

(** Body of the inner loop of [store]. *)
Definition store_order (market orderid : string) : Py unit :=
  b <- py_get ;;
  py_when (newly_opened (opened_orders b) market orderid)
    (py_modify (set_orders (append_order market orderid)) ;;;
     emit (OrderPlaced orderid)).

(** Body of the outer loop of [store]. *)
Definition store_market (curOrders : gmap string (list string))
    (market : string) : Py unit :=
  b <- py_get ;;
  py_when (bool_decide (orders b !! market = None))
    (py_modify (set_orders <[market := []]>)) ;;;
  match curOrders !! market with
  | Some ids => py_for ids (store_order market)
  | None => py_ret tt
  end.

(** [store()].  [myorders] is [state["orders"]] itself, so the closing
    assignment [state["orders"] = myorders] changes nothing. *)
Definition store (cfg : Settings) (dex : Dex) : Py unit :=
  py_for (markets cfg) (store_market (returnOpenOrdersIds dex)) ;;;
  py_when (negb (safe_mode cfg))
    (b <- py_get ;; py_modify (set_disk (orders b))).

(** ** Reconciliation *)

(** The list object [old_orders[market]]: it is
    [self.state["orders"][market]] itself, not a copy. *)
Definition ledger_list (market : string) (b : Bot) : list string :=
  default [] (orders b !! market).

(** Body of the inner loop of [loadMarket]. *)
Definition loadMarket_order (cur_orders : gmap string (list string))
    (notify : bool) (market orderid : string) : Py unit :=
  live <- py_getitem cur_orders market ;;
  py_when (bool_decide (orderid ∉ live))
    (py_modify (set_orders (alter (remove_if_in orderid) market)) ;;;
     py_when notify (emit (OrderFilled orderid))).

Definition loadMarket_market (cur_orders : gmap string (list string))
    (notify : bool) (market : string) : Py unit :=
  b <- py_get ;;
  py_when (bool_decide (is_Some (orders b !! market)))
    (py_for_list (ledger_list market)
       (loadMarket_order cur_orders notify market)).

Definition loadMarket (cfg : Settings) (dex : Dex) (notify : bool) : Py unit :=
  py_modify (set_opened_orders (returnOpenOrdersIds dex)) ;;;
  py_for (markets cfg)
    (loadMarket_market (returnOpenOrdersIds dex) notify).

(** ** Running a method *)

(** Outcome and final bot of a call, the outcome alone, the bot alone. *)
Definition run {A} (m : Py A) (b : Bot) : (PyExc + A) * Bot := m b.

Definition result {A} (m : Py A) (b : Bot) : PyExc + A := (m b).1.

Definition after {A} (m : Py A) (b : Bot) : Bot := (m b).2.

(** The events a method adds to the trace. *)
Definition emitted {A} (m : Py A) (b : Bot) : list Event :=
  drop (length (events b)) (events (after m b)).

(** A bot fresh from the constructor with ledger [os]. *)
Definition bot_with (os : gmap string (list string)) : Bot :=
  mkBot os ∅ [] None.

(** A gateway whose id listing is [ids] and whose cancel calls succeed. *)
Definition dex_ids (ids : gmap string (list string)) : Dex :=
  mkDex ∅ ids (λ _, false).

(** ** Notions used in the statements *)

(** [x] occurs [occurrences x l] times in [l]. *)
Definition occurrences {A} `{EqDecision A} (x : A) (l : list A) : nat :=
  length (filter (λ y, y = x) l).

(** The gateway cancel requests in a trace, in the order issued. *)
Definition cancel_attempts (tr : list Event) : list string :=
  omap (λ e, match e with DexCancel i => Some i | _ => None end) tr.

(** Every list of the ledger is duplicate-free. *)
Definition unique_ids (b : Bot) : Prop :=
  ∀ m l, orders b !! m = Some l → NoDup l.

(** What one round of [_cancel_set] adds to the trace. *)
Definition cancel_events (dex : Dex) (orderId : string) : list Event :=
  DexCancel orderId
    :: (if cancel_raises dex orderId then [LogCritical orderId] else [])
    ++ [OrderCanceled orderId].

(** The ids of the gateway's current snapshot for [m] that the previous
    snapshot [opened] does not list for [m]. *)
Definition new_ids (opened cur : gmap string (list string)) (m : string)
    : list string :=
  filter (λ id, id ∉ default [] (opened !! m)) (default [] (cur !! m)).

(** The ledger after the loop of [store] over the markets [ms]. *)
Definition adopt_all (opened cur : gmap string (list string))
    (ms : list string) (os : gmap string (list string))
    : gmap string (list string) :=
  foldl (λ os m, <[m := default [] (os !! m) ++ new_ids opened cur m]> os) os ms.

(** [m] keeps [P] true, also when it raises. *)
Definition preserves {A} (P : Bot → Prop) (m : Py A) : Prop :=
  ∀ b, P b → P (after m b).

(** ** Sample inputs *)

Definition served_M : Settings := mkSettings ["M"] true.

(** A gateway whose every cancel call raises. *)
Definition dex_failing : Dex := mkDex ∅ ∅ (λ _, true).

(** A gateway that raises for the id ["b"] only. *)
Definition dex_failing_b : Dex := mkDex ∅ ∅ (λ id, bool_decide (id = "b")).

(** One open order [d] in market [M]. *)
Definition dex_d : Dex := dex_ids {[ "M" := ["d"] ]}.

(** Two open orders in market [USD_BTS], of which the bot owns [a]. *)
Definition dex_usd_bts : Dex :=
  mkDex {[ "USD_BTS" := [mkOrder "sell" "a"; mkOrder "buy" "z"] ]}
        {[ "USD_BTS" := ["a"; "z"] ]} (λ _, false).

Definition served_usd_bts : Settings := mkSettings ["USD_BTS"] true.

(** ** Unfolding the monad *)

Ltac py_unfold :=
  unfold py_bind, py_ret, py_raise, py_get, py_modify, emit, py_when,
    set_orders, add_event, set_disk, set_opened_orders.

(** ** The other methods of [BaseStrategy] *)

(** [getMyOrders()]: a fresh dictionary with one entry per served market. *)
Definition getMyOrders (cfg : Settings) : Py (gmap string (list string)) :=
  b <- py_get ;;
  py_ret (foldl (λ myOrders market,
                   match orders b !! market with
                   | Some l => <[market := l]> myOrders
                   | None => <[market := []]> myOrders
                   end) ∅ (markets cfg)).

(** The remaining side-named aliases that call an existing method, each
    with its one positional argument bound to [markets]. *)
Definition cancel_all_buy_orders (py_is : string → string → bool)
    (cfg : Settings) (dex : Dex) : Py nat :=
  cancel_all py_is cfg dex (MStr "buy") "both".

Definition cancel_all_bid_orders (py_is : string → string → bool)
    (cfg : Settings) (dex : Dex) : Py nat :=
  cancel_all py_is cfg dex (MStr "buy") "both".

Definition cancel_all_ask_orders (py_is : string → string → bool)
    (cfg : Settings) (dex : Dex) : Py nat :=
  cancel_all py_is cfg dex (MStr "sell") "both".

Definition cancel_my_sell_orders (py_is : string → string → bool)
    (cfg : Settings) (dex : Dex) : Py nat :=
  cancel_mine py_is cfg dex (MStr "sell") "both".

Definition cancel_my_buy_orders (py_is : string → string → bool)
    (cfg : Settings) (dex : Dex) : Py nat :=
  cancel_mine py_is cfg dex (MStr "buy") "both".

(** What [cancel(orderid)] can raise: its [return cancel] reads a local
    that the [except] branch never assigns. *)
Inductive CancelExc :=
  | UnboundLocalError (name : string).

(** [cancel(orderid)].  [dex_cancel_value] is what [dex.cancel] returns when
    it does not raise. *)
Definition cancel {V} (dex : Dex) (dex_cancel_value : string → V)
    (orderid : string) (b : Bot) : (CancelExc + V) * Bot :=
  let b1 := add_event (DexCancel orderid) b in
  if cancel_raises dex orderid
  then (inl (UnboundLocalError "cancel"), add_event (LogCritical orderid) b1)
  else (inr (dex_cancel_value orderid), b1).

(** The lifecycle register: [self.fsm] and [self.fsm_cnt]. *)
Record Fsm := mkFsm {
  fsm : string;
  fsm_cnt : Z
}.

Definition resetFSMCounter (f : Fsm) : Fsm := mkFsm (fsm f) 0.

Definition changeFSM (state : string) (f : Fsm) : Fsm :=
  resetFSMCounter (mkFsm state (fsm_cnt f)).

Definition getFSM (f : Fsm) : string := fsm f.

Definition incrementFSMCounter (f : Fsm) : Fsm := mkFsm (fsm f) (fsm_cnt f + 1).

Definition getFSMCounter (f : Fsm) : Z := fsm_cnt f.

(** The scoped accessors.  Here [self.state] is seen whole: a dictionary
    whose values are dictionaries ([state["orders"]] is one of them), with
    Python values of some type [V] inside. *)
Definition _set {V} (market key : string) (value : V)
    (state : gmap string (gmap string V)) : gmap string (gmap string V) :=
  let state1 :=
    if bool_decide (state !! market = None) then <[market := ∅]> state
    else state in
  alter <[key := value]> market state1.

(** [_get(market, key)]: the value returned ([None] is Python's [None]) and
    the state left behind. *)
Definition _get {V} (market key : string)
    (state : gmap string (gmap string V))
    : option V * gmap string (gmap string V) :=
  match state !! market with
  | None => (None, <[market := ∅]> state)
  | Some d => (d !! key, state)
  end.

(** ** Notions for reconciliation *)

(** The inner loop of [loadMarket] on one list, apart from the bot: the
    list left and the ids announced, walking from index [i]. *)
Fixpoint scan (live : list string) (fuel i : nat) (l : list string)
    : list string * list string :=
  match fuel with
  | O => (l, [])
  | S fuel' =>
      match l !! i with
      | None => (l, [])
      | Some x =>
          if bool_decide (x ∉ live)
          then let r := scan live fuel' (S i) (remove_if_in x l) in
               (r.1, x :: r.2)
          else scan live fuel' (S i) l
      end
  end.

(** On a duplicate-free list the walk keeps every live id, drops an id
    that is gone and then steps over its successor, which is kept unseen. *)
Fixpoint skip_keep (live : list string) (l : list string) : list string :=
  match l with
  | [] => []
  | x :: r =>
      if bool_decide (x ∉ live)
      then match r with
           | [] => []
           | y :: r' => y :: skip_keep live r'
           end
      else x :: skip_keep live r
  end.

Fixpoint skip_fills (live : list string) (l : list string) : list string :=
  match l with
  | [] => []
  | x :: r =>
      if bool_decide (x ∉ live)
      then x :: match r with
                | [] => []
                | y :: r' => skip_fills live r'
                end
      else skip_fills live r
  end.

(** No id that is gone is directly followed by another id that is gone. *)
Fixpoint fills_apart (live : list string) (l : list string) : Prop :=
  match l with
  | [] => True
  | x :: r =>
      (x ∉ live → match r with [] => True | y :: _ => y ∈ live end)
      ∧ fills_apart live r
  end.

(** One round of the outer loop of [loadMarket], apart from the monad. *)
Definition reconcile_market (cur : gmap string (list string)) (notify : bool)
    (m : string) (b : Bot) : (PyExc + unit) * Bot :=
  match orders b !! m with
  | None => (inr tt, b)
  | Some l =>
      match cur !! m with
      | Some live =>
          let r := scan live (length l) 0 l in
          (inr tt,
           mkBot (<[m := r.1]> (orders b)) (opened_orders b)
                 (events b ++ (if notify then OrderFilled <$> r.2 else []))
                 (disk b))
      | None =>
          match l with
          | [] => (inr tt, b)
          | _ :: _ => (inl (KeyError m), b)
          end
      end
  end.

(** [k] is the first market of [ms] without a key in [cur]. *)
Definition first_absent {V} (cur : gmap string V) (ms : list string)
    (k : string) : Prop :=
  ∃ pre post, ms = pre ++ k :: post
              ∧ Forall (λ m, is_Some (cur !! m)) pre
              ∧ cur !! k = None.

(** The [orderCanceled] callbacks and the critical log lines in a trace,
    in order. *)
Definition canceled_callbacks (tr : list Event) : list string :=
  omap (λ e, match e with OrderCanceled i => Some i | _ => None end) tr.

Definition critical_logs (tr : list Event) : list string :=
  omap (λ e, match e with LogCritical i => Some i | _ => None end) tr.

(** The live ids the gateway lists for [m]; none when [m] has no key. *)
Definition live_ids (cur : gmap string (list string)) (m : string)
    : list string :=
  default [] (cur !! m).

(** An event that announces a real fill: [orderFilled(id)] with
    notification on, for an id the ledger [b] records under a served market
    whose live ids do not list it. *)
Definition fill_ok (cfg : Settings) (cur : gmap string (list string))
    (notify : bool) (b : Bot) (e : Event) : Prop :=
  ∃ id m live, e = OrderFilled id ∧ notify = true ∧ m ∈ markets cfg
               ∧ id ∈ ledger_list m b ∧ cur !! m = Some live ∧ id ∉ live.

(** How a bot [b'] met during or after [loadMarket] relates to the bot [b]
    the call started from. *)
Definition reconciled (cfg : Settings) (cur : gmap string (list string))
    (notify : bool) (b b' : Bot) : Prop :=
  opened_orders b' = cur
  ∧ disk b' = disk b
  ∧ (∀ m, m ∉ markets cfg → orders b' !! m = orders b !! m)
  ∧ (∀ m, ledger_list m b' `sublist_of` ledger_list m b)
  ∧ (∀ m, is_Some (orders b' !! m) ↔ is_Some (orders b !! m))
  ∧ (∀ m x, x ∈ live_ids cur m →
            occurrences x (ledger_list m b') = occurrences x (ledger_list m b))
  ∧ ∃ tr, events b' = events b ++ tr ∧ Forall (fill_ok cfg cur notify b) tr.

(** The ledger after the loop of [loadMarket] over [ms], when every list
    walked is duplicate-free. *)
Definition reconcile_all (cur : gmap string (list string)) (ms : list string)
    (os : gmap string (list string)) : gmap string (list string) :=
  foldl (λ os m, alter (skip_keep (live_ids cur m)) m os) os ms.

(** * Properties *)

(** ** Lists *)

Lemma occurrences_nil {A} `{EqDecision A} (x : A) : occurrences x [] = 0.
Proof. reflexivity. Qed.

Lemma occurrences_cons {A} `{EqDecision A} (x y : A) l :
  occurrences x (y :: l) = (if decide (y = x) then 1 else 0) + occurrences x l.
Proof.
  unfold occurrences. rewrite filter_cons. by destruct (decide (y = x)).
Qed.

Lemma occurrences_app {A} `{EqDecision A} (x : A) l k :
  occurrences x (l ++ k) = occurrences x l + occurrences x k.
Proof. unfold occurrences. by rewrite filter_app, length_app. Qed.

Lemma occurrences_0 {A} `{EqDecision A} (x : A) l :
  x ∉ l → occurrences x l = 0.
Proof.
  induction l as [|y l IH]; intros Hx; [done|].
  apply not_elem_of_cons in Hx as [Hne Hl].
  rewrite occurrences_cons, decide_False by done.
  by apply IH.
Qed.

Lemma occurrences_NoDup {A} `{EqDecision A} (x : A) l :
  NoDup l → x ∈ l → occurrences x l = 1.
Proof.
  induction 1 as [|y l Hy Hl IH]; intros Hx; [by destruct (not_elem_of_nil x)|].
  rewrite occurrences_cons. destruct (decide (y = x)) as [->|Hne].
  - by rewrite occurrences_0.
  - rewrite IH; [done|]. apply elem_of_cons in Hx as [Heq|Hin]; [congruence|done].
Qed.

Lemma occurrences_pos {A} `{EqDecision A} (x : A) l :
  0 < occurrences x l → x ∈ l.
Proof.
  induction l as [|y l IH]; [rewrite occurrences_nil; lia|].
  rewrite occurrences_cons. destruct (decide (y = x)) as [->|Hne].
  - intros _. left.
  - intros H. right. apply IH. lia.
Qed.

Lemma occurrences_elem_of {A} `{EqDecision A} (x : A) l :
  x ∈ l → 0 < occurrences x l.
Proof.
  induction 1 as [y l|y z l Hin IH]; rewrite occurrences_cons.
  - rewrite decide_True by done. lia.
  - lia.
Qed.

Lemma py_remove_sublist x l : py_remove x l `sublist_of` l.
Proof.
  induction l as [|y l IH]; simpl; [done|].
  destruct (decide (x = y)).
  - by apply sublist_cons.
  - by apply sublist_skip.
Qed.

Lemma remove_if_in_sublist x l : remove_if_in x l `sublist_of` l.
Proof.
  unfold remove_if_in. case_bool_decide; [apply py_remove_sublist|done].
Qed.

Lemma remove_if_in_NoDup x l : NoDup l → NoDup (remove_if_in x l).
Proof. intros H. eapply sublist_NoDup; [done|apply remove_if_in_sublist]. Qed.

Lemma remove_if_in_length x l : (length (remove_if_in x l) ≤ length l)%nat.
Proof. apply sublist_length, remove_if_in_sublist. Qed.

Lemma py_remove_occurrences x y l :
  occurrences x (py_remove y l)
  = occurrences x l - (if decide (x = y) then 1 else 0).
Proof.
  induction l as [|z l IH]; simpl.
  - rewrite occurrences_nil. lia.
  - destruct (decide (y = z)) as [Hyz|Hyz].
    + rewrite occurrences_cons.
      destruct (decide (z = x)), (decide (x = y)); try congruence; lia.
    + rewrite !occurrences_cons, IH.
      destruct (decide (z = x)), (decide (x = y)); try congruence; lia.
Qed.

Lemma remove_if_in_occurrences x y l :
  occurrences x (remove_if_in y l)
  = occurrences x l - (if decide (x = y) then 1 else 0).
Proof.
  unfold remove_if_in. case_bool_decide as Hy; [apply py_remove_occurrences|].
  destruct (decide (x = y)) as [->|?]; [|lia].
  rewrite occurrences_0 by done. lia.
Qed.

(** ** Batch cancellation *)

Lemma bot_eta b :
  mkBot (orders b) (opened_orders b) (events b) (disk b) = b.
Proof. by destruct b. Qed.

Lemma cancel_loop_run dex ids n b :
  cancel_loop dex ids n b
  = (inr (n + length ids),
     mkBot (foldl (λ os id, forget_order id os) (orders b) ids)
           (opened_orders b)
           (events b ++ flat_map (cancel_events dex) ids)
           (disk b)).
Proof.
  revert n b. induction ids as [|id ids IH]; intros n b; simpl.
  - unfold py_ret. by rewrite Nat.add_0_r, app_nil_r, bot_eta.
  - py_unfold. unfold cancel_events at 1.
    destruct (cancel_raises dex id); simpl;
      rewrite IH; simpl; rewrite <- !app_assoc; simpl; do 2 f_equal; lia.
Qed.

Lemma forget_all_lookup ids (os : gmap string (list string)) m :
  foldl (λ os id, forget_order id os) os ids !! m
  = (λ l, foldl (λ l id, remove_if_in id l) l ids) <$> os !! m.
Proof.
  revert os. induction ids as [|id ids IH]; intros os; simpl.
  - by destruct (os !! m).
  - rewrite IH. unfold forget_order. rewrite lookup_fmap.
    by destruct (os !! m).
Qed.

Lemma remove_all_occurrences x ids l :
  occurrences x (foldl (λ l id, remove_if_in id l) l ids)
  = occurrences x l - occurrences x ids.
Proof.
  revert l. induction ids as [|id ids IH]; intros l; simpl.
  - rewrite occurrences_nil. lia.
  - rewrite IH, remove_if_in_occurrences, occurrences_cons.
    destruct (decide (x = id)), (decide (id = x)); try congruence; lia.
Qed.

Lemma remove_all_sublist ids l :
  foldl (λ l id, remove_if_in id l) l ids `sublist_of` l.
Proof.
  revert l. induction ids as [|id ids IH]; intros l; simpl; [done|].
  etrans; [apply IH|apply remove_if_in_sublist].
Qed.

Lemma cancel_attempts_events dex ids :
  cancel_attempts (flat_map (cancel_events dex) ids) = ids.
Proof.
  induction ids as [|id ids IH]; [done|].
  change (flat_map (cancel_events dex) (id :: ids))
    with (cancel_events dex id ++ flat_map (cancel_events dex) ids).
  unfold cancel_attempts in *. rewrite omap_app, IH.
  unfold cancel_events. by destruct (cancel_raises dex id).
Qed.

Lemma emitted_app {A} (m : Py A) b tr :
  events (after m b) = events b ++ tr → emitted m b = tr.
Proof. unfold emitted. intros ->. by rewrite drop_app_length. Qed.

Lemma _cancel_set_run dex toCancel b :
  run (_cancel_set dex toCancel) b
  = (inr (size toCancel),
     mkBot (foldl (λ os id, forget_order id os) (orders b) (elements toCancel))
           (opened_orders b)
           (events b ++ flat_map (cancel_events dex) (elements toCancel))
           (disk b)).
Proof. unfold run, _cancel_set. by rewrite cancel_loop_run. Qed.

Lemma _cancel_set_orders dex toCancel b m :
  orders (after (_cancel_set dex toCancel) b) !! m
  = (λ l, foldl (λ l id, remove_if_in id l) l (elements toCancel))
      <$> orders b !! m.
Proof.
  unfold after. fold (run (_cancel_set dex toCancel) b).
  rewrite _cancel_set_run. simpl. apply forget_all_lookup.
Qed.

Lemma _cancel_set_emitted dex toCancel b :
  emitted (_cancel_set dex toCancel) b
  = flat_map (cancel_events dex) (elements toCancel).
Proof.
  apply emitted_app. unfold after.
  fold (run (_cancel_set dex toCancel) b). by rewrite _cancel_set_run.
Qed.

(** C5.  Partial-failure tolerance of [_cancel_set]: when the gateway raises
    for exactly one id [bad] of the candidate set, the call still returns
    normally with the number of candidates, and it has sent the gateway one
    cancel request for every candidate, the other N-1 included; the failure
    shows only as a critical log line. *)
Theorem cancel_set_partial_failure dex toCancel b bad :
  bad ∈ toCancel →
  (∀ id, id ∈ toCancel → cancel_raises dex id = true ↔ id = bad) →
  result (_cancel_set dex toCancel) b = inr (size toCancel)
  ∧ (∀ id, id ∈ toCancel →
       occurrences id (cancel_attempts (emitted (_cancel_set dex toCancel) b)) = 1)
  ∧ (∀ id, id ∈ cancel_attempts (emitted (_cancel_set dex toCancel) b) →
       id ∈ toCancel)
  ∧ LogCritical bad ∈ emitted (_cancel_set dex toCancel) b.
Proof.
  intros Hbad Hone. rewrite _cancel_set_emitted, cancel_attempts_events.
  split; [|split; [|split]].
  - unfold result. fold (run (_cancel_set dex toCancel) b).
    by rewrite _cancel_set_run.
  - intros id Hid. apply occurrences_NoDup; [apply NoDup_elements|].
    by apply elem_of_elements.
  - intros id Hid. by apply elem_of_elements in Hid.
  - apply list_elem_of_In, in_flat_map. exists bad. split.
    + by apply list_elem_of_In, elem_of_elements.
    + unfold cancel_events. rewrite (proj2 (Hone bad Hbad) eq_refl).
      simpl. auto.
Qed.

Lemma canceled_callbacks_events dex ids :
  canceled_callbacks (flat_map (cancel_events dex) ids) = ids.
Proof.
  induction ids as [|id ids IH]; [done|].
  change (flat_map (cancel_events dex) (id :: ids))
    with (cancel_events dex id ++ flat_map (cancel_events dex) ids).
  unfold canceled_callbacks in *. rewrite omap_app, IH.
  unfold cancel_events. by destruct (cancel_raises dex id).
Qed.

(** C4, in the form the code satisfies.  A failed cancel attempt mutates
    the ledger exactly as a successful one does: for an id of the batch whose
    gateway call raises, [_cancel_set] logs the failure, still calls
    [orderCanceled(id)], once, and drops one occurrence of the id from every
    market list that recorded it, so a duplicate-free list no longer holds it
    afterwards; the other ids keep their relative order, and the resulting
    ledger is the same whichever cancel calls raise. *)
Theorem cancel_failure_still_forgets dex toCancel b id m l :
  id ∈ toCancel →
  cancel_raises dex id = true →
  orders b !! m = Some l →
  occurrences id (canceled_callbacks (emitted (_cancel_set dex toCancel) b)) = 1
  ∧ LogCritical id ∈ emitted (_cancel_set dex toCancel) b
  ∧ ∃ l', orders (after (_cancel_set dex toCancel) b) !! m = Some l'
          ∧ occurrences id l' = pred (occurrences id l)
          ∧ l' `sublist_of` l
          ∧ (NoDup l → id ∉ l')
          ∧ ∀ dex', orders (after (_cancel_set dex' toCancel) b) !! m = Some l'.
Proof.
  intros Hid Hraises Hl. split; [|split].
  - rewrite _cancel_set_emitted, canceled_callbacks_events.
    apply occurrences_NoDup; [apply NoDup_elements|by apply elem_of_elements].
  - rewrite _cancel_set_emitted. apply list_elem_of_In, in_flat_map.
    exists id. split; [by apply list_elem_of_In, elem_of_elements|].
    unfold cancel_events. rewrite Hraises. simpl. auto.
  - eexists. split; [|split; [|split; [|split]]].
    + rewrite _cancel_set_orders, Hl. reflexivity.
    + rewrite remove_all_occurrences.
      rewrite (occurrences_NoDup id (elements toCancel));
        [lia|apply NoDup_elements|by apply elem_of_elements].
    + apply remove_all_sublist.
    + intros Hnd Hin. apply occurrences_elem_of in Hin.
      rewrite remove_all_occurrences in Hin.
      rewrite (occurrences_NoDup id (elements toCancel)) in Hin;
        [|apply NoDup_elements|by apply elem_of_elements].
      destruct (decide (id ∈ l)) as [Hil|Hil].
      * rewrite (occurrences_NoDup id l) in Hin by done. lia.
      * rewrite (occurrences_0 id l) in Hin by done. lia.
    + intros dex'. by rewrite _cancel_set_orders, Hl.
Qed.

(** ** Cancellation scopes *)

Section ScopeFacts.

Variable py_is : string → string → bool.

Lemma add_mine_elem_of state_orders m side acc os id :
  id ∈ add_mine py_is state_orders m side acc os →
  id ∈ acc ∨ ∃ mine, state_orders !! m = Some mine ∧ id ∈ mine.
Proof.
  unfold add_mine. revert acc.
  induction os as [|o os IH]; intros acc; simpl; [by left|].
  intros Hid. apply IH in Hid as [Hid|Hid]; [|by right].
  destruct (state_orders !! m) as [mine|] eqn:Hm; [|by left].
  case_bool_decide as Hin; [|by left].
  destruct (side_matches py_is (o_type o) side); [|by left].
  apply elem_of_union in Hid as [Hid|Hid]; [by left|].
  apply elem_of_singleton in Hid as ->. right. by exists mine.
Qed.

Lemma cancel_mine_plan_elem_of curOrders state_orders side ms acc toCancel id :
  cancel_mine_plan py_is curOrders state_orders side ms acc = inr toCancel →
  id ∈ toCancel →
  id ∈ acc ∨ ∃ m mine, m ∈ ms ∧ state_orders !! m = Some mine ∧ id ∈ mine.
Proof.
  revert acc. induction ms as [|m ms IH]; intros acc; simpl.
  - intros [= ->] Hid. by left.
  - destruct (curOrders !! m) as [os|]; [|done].
    intros Hplan Hid. destruct (IH _ Hplan Hid) as [Hacc|(m' & mine & ? & ? & ?)].
    + apply add_mine_elem_of in Hacc as [?|(mine & ? & ?)]; [by left|].
      right. exists m, mine. split; [left|done].
    + right. exists m', mine. split; [by right|done].
Qed.

(** The plan of [cancel_mine] exists exactly when the snapshot has a key
    for every market walked; otherwise the lookup raises. *)
Lemma cancel_mine_plan_total curOrders state_orders side ms acc :
  Forall (λ m, is_Some (curOrders !! m)) ms →
  ∃ toCancel,
    cancel_mine_plan py_is curOrders state_orders side ms acc = inr toCancel.
Proof.
  intros Hall. revert acc.
  induction Hall as [|m ms [os Hm] _ IH]; intros acc; simpl; [by eexists|].
  rewrite Hm. apply IH.
Qed.

Lemma cancel_this_markets_plan_total curOrders side ms acc :
  Forall (λ m, is_Some (curOrders !! m)) ms →
  ∃ toCancel,
    cancel_this_markets_plan py_is curOrders side ms acc = inr toCancel.
Proof.
  intros Hall. revert acc.
  induction Hall as [|m ms [os Hm] _ IH]; intros acc; simpl; [by eexists|].
  rewrite Hm. apply IH.
Qed.

(** A market whose key is present with an empty list adds nothing, in
    each of the three scopes. *)
Lemma cancel_all_plan_no_orders curOrders side m ms acc :
  curOrders !! m = Some [] →
  cancel_all_plan py_is curOrders side (m :: ms) acc
  = cancel_all_plan py_is curOrders side ms acc.
Proof. intros Hm. simpl. by rewrite Hm. Qed.

Lemma cancel_mine_plan_no_orders curOrders state_orders side m ms acc :
  curOrders !! m = Some [] →
  cancel_mine_plan py_is curOrders state_orders side (m :: ms) acc
  = cancel_mine_plan py_is curOrders state_orders side ms acc.
Proof. intros Hm. simpl. by rewrite Hm. Qed.

Lemma cancel_this_markets_plan_no_orders curOrders side m ms acc :
  curOrders !! m = Some [] →
  cancel_this_markets_plan py_is curOrders side (m :: ms) acc
  = cancel_this_markets_plan py_is curOrders side ms acc.
Proof. intros Hm. simpl. by rewrite Hm. Qed.

(** Only [cancel_all] also skips a market whose key is missing. *)
Lemma cancel_all_plan_absent curOrders side m ms acc :
  curOrders !! m = None →
  cancel_all_plan py_is curOrders side (m :: ms) acc
  = cancel_all_plan py_is curOrders side ms acc.
Proof. intros Hm. simpl. by rewrite Hm. Qed.

Lemma cancel_all_plan_none curOrders side ms acc :
  Forall (λ m, curOrders !! m = None) ms →
  cancel_all_plan py_is curOrders side ms acc = acc.
Proof.
  induction 1 as [|m ms Hm _ IH]; [done|].
  by rewrite cancel_all_plan_absent.
Qed.

(** C1.  Ownership safety of [cancel_mine]: whenever it computes a
    candidate set (for any side filter, ["both"] included), every
    candidate is recorded in the bot's own [state["orders"][m]] for one of
    the markets [m] walked, whatever the gateway snapshot holds; and the
    gateway is asked to cancel exactly these candidates. *)
Theorem cancel_mine_ownership cfg dex b ms side toCancel :
  cancel_mine_plan py_is (returnOpenOrders dex) (orders b) side
    (effective_markets cfg ms) ∅ = inr toCancel →
  (∀ id, id ∈ toCancel →
     ∃ m mine, m ∈ effective_markets cfg ms
               ∧ orders b !! m = Some mine ∧ id ∈ mine)
  ∧ cancel_attempts (emitted (cancel_mine py_is cfg dex ms side) b)
    = elements toCancel.
Proof.
  intros Hplan. split.
  - intros id Hid.
    destruct (cancel_mine_plan_elem_of _ _ _ _ _ _ _ Hplan Hid) as [Hacc|?];
      [|done].
    by apply not_elem_of_empty in Hacc.
  - unfold emitted, after, cancel_mine. py_unfold. rewrite Hplan.
    fold (after (_cancel_set dex toCancel) b).
    fold (emitted (_cancel_set dex toCancel) b).
    by rewrite _cancel_set_emitted, cancel_attempts_events.
Qed.

(** C10.  [cancel_all_sell_orders()] passes ["sell"] as [markets]: the
    markets walked are the four one-letter strings, and when every key of
    the gateway snapshot has at least two characters the call selects
    nothing, sends no cancel request, leaves the bot as it was and
    returns 0. *)
Theorem cancel_all_sell_orders_selects_nothing cfg dex b :
  (∀ m, is_Some (returnOpenOrders dex !! m) → (2 ≤ String.length m)%nat) →
  effective_markets cfg (MStr "sell") = ["s"; "e"; "l"; "l"]
  ∧ cancel_all_plan py_is (returnOpenOrders dex) "both"
      (effective_markets cfg (MStr "sell")) ∅ = ∅
  ∧ run (cancel_all_sell_orders py_is cfg dex) b = (inr 0, b).
Proof.
  intros Hkeys.
  assert (Hplan : cancel_all_plan py_is (returnOpenOrders dex) "both"
                    (effective_markets cfg (MStr "sell")) ∅ = ∅).
  { apply cancel_all_plan_none.
    change (effective_markets cfg (MStr "sell")) with ["s"; "e"; "l"; "l"].
    repeat constructor;
      match goal with
      | |- ?d !! ?m = None =>
          destruct (d !! m) eqn:Hm; [|done];
          assert (2 ≤ String.length m)%nat as Hlen by (apply Hkeys; by rewrite Hm);
          simpl in Hlen; lia
      end. }
  split; [done|]. split; [done|].
  unfold cancel_all_sell_orders, cancel_all. rewrite Hplan, _cancel_set_run.
  rewrite size_empty, elements_empty. simpl.
  by rewrite app_nil_r, bot_eta.
Qed.

End ScopeFacts.

(** ** Placement bookkeeping *)

Lemma newly_opened_spec opened m id :
  newly_opened opened m id = bool_decide (id ∉ default [] (opened !! m)).
Proof.
  unfold newly_opened. by destruct (opened !! m).
Qed.

Lemma insert_alter_same {V} (f : V → V) m v (os : gmap string V) :
  <[m := v]> (alter f m os) = <[m := v]> os.
Proof.
  apply map_eq. intros k. destruct (decide (m = k)) as [->|Hne].
  - by rewrite !lookup_insert_eq.
  - by rewrite !lookup_insert_ne, lookup_alter_ne.
Qed.

Lemma store_ids_run market ids b l :
  orders b !! market = Some l →
  py_for ids (store_order market) b
  = (inr tt,
     mkBot (<[market :=
                l ++ filter (λ id, id ∉ default [] (opened_orders b !! market)) ids]>
              (orders b))
           (opened_orders b)
           (events b
              ++ (OrderPlaced <$>
                    filter (λ id, id ∉ default [] (opened_orders b !! market)) ids))
           (disk b)).
Proof.
  revert b l. induction ids as [|id ids IH]; intros b l Hl.
  - simpl. unfold py_ret. rewrite !app_nil_r, insert_id by done.
    by rewrite bot_eta.
  - cbn [py_for]. unfold py_bind at 1, store_order at 1.
    unfold py_bind at 1, py_get. cbn beta iota.
    rewrite newly_opened_spec, filter_cons.
    destruct (decide (id ∉ default [] (opened_orders b !! market))) as [Hn|Hn].
    + rewrite bool_decide_eq_true_2 by done. py_unfold. simpl.
      erewrite IH; simpl.
      2:{ unfold append_order. rewrite lookup_alter_eq, Hl. reflexivity. }
      unfold append_order. rewrite insert_alter_same.
      by rewrite <- !app_assoc.
    + rewrite bool_decide_eq_false_2 by done. py_unfold. simpl.
      by erewrite IH.
Qed.

Lemma store_market_run cur m b :
  store_market cur m b
  = (inr tt,
     mkBot (<[m := ledger_list m b ++ new_ids (opened_orders b) cur m]> (orders b))
           (opened_orders b)
           (events b ++ (OrderPlaced <$> new_ids (opened_orders b) cur m))
           (disk b)).
Proof.
  unfold store_market, new_ids, ledger_list.
  unfold py_bind at 1. unfold py_get at 1. cbn beta iota.
  destruct (orders b !! m) as [l|] eqn:Hl.
  - rewrite bool_decide_eq_false_2 by done.
    unfold py_when, py_bind, py_ret. simpl.
    destruct (cur !! m) as [ids|]; simpl.
    + by erewrite store_ids_run.
    + unfold py_ret. rewrite !app_nil_r, insert_id by done. by rewrite bot_eta.
  - rewrite bool_decide_eq_true_2 by done.
    unfold py_when, py_bind, py_modify. simpl.
    destruct (cur !! m) as [ids|]; simpl.
    + erewrite store_ids_run; simpl; [|apply lookup_insert_eq].
      by rewrite insert_insert_eq.
    + unfold py_ret, set_orders. by rewrite !app_nil_r.
Qed.

Lemma store_loop_run cur ms b :
  py_for ms (store_market cur) b
  = (inr tt,
     mkBot (adopt_all (opened_orders b) cur ms (orders b))
           (opened_orders b)
           (events b
              ++ flat_map (λ m, OrderPlaced <$> new_ids (opened_orders b) cur m) ms)
           (disk b)).
Proof.
  revert b. induction ms as [|m ms IH]; intros b; simpl.
  - unfold py_ret. by rewrite app_nil_r, bot_eta.
  - unfold py_bind. rewrite store_market_run, IH. simpl.
    unfold ledger_list. by rewrite <- app_assoc.
Qed.

Lemma adopt_all_other opened cur ms os m :
  m ∉ ms → adopt_all opened cur ms os !! m = os !! m.
Proof.
  unfold adopt_all. revert os.
  induction ms as [|m' ms IH]; intros os Hm; simpl; [done|].
  apply not_elem_of_cons in Hm as [Hne Hm].
  rewrite IH by done. by rewrite lookup_insert_ne.
Qed.

Lemma adopt_all_served opened cur ms os m :
  NoDup ms → m ∈ ms →
  adopt_all opened cur ms os !! m
  = Some (default [] (os !! m) ++ new_ids opened cur m).
Proof.
  unfold adopt_all. intros Hnd. revert os.
  induction Hnd as [|m' ms Hm' Hnd IH]; intros os Hm; simpl.
  - by destruct (not_elem_of_nil m).
  - apply elem_of_cons in Hm as [->|Hm].
    + fold (adopt_all opened cur ms
              (<[m' := default [] (os !! m') ++ new_ids opened cur m']> os)).
      rewrite adopt_all_other by done. by rewrite lookup_insert_eq.
    + rewrite IH by done. rewrite lookup_insert_ne; [done|].
      intros ->. done.
Qed.

Lemma store_run cfg dex b :
  ∃ d,
    run (store cfg dex) b
    = (inr tt,
       mkBot (adopt_all (opened_orders b) (returnOpenOrdersIds dex)
                (markets cfg) (orders b))
             (opened_orders b)
             (events b
                ++ flat_map (λ m, OrderPlaced <$>
                               new_ids (opened_orders b) (returnOpenOrdersIds dex) m)
                     (markets cfg))
             d).
Proof.
  unfold run, store. unfold py_bind at 1. rewrite store_loop_run.
  destruct (safe_mode cfg); simpl; py_unfold; simpl; by eexists.
Qed.


(** ** Reconciliation *)

Section Preservation.

Variable P : Bot → Prop.

Lemma preserves_ret {A} (a : A) : preserves P (py_ret a).
Proof. by intros b. Qed.

Lemma preserves_raise {A} e : preserves P (@py_raise A e).
Proof. by intros b. Qed.

Lemma preserves_get : preserves P py_get.
Proof. by intros b. Qed.

Lemma preserves_modify f : (∀ b, P b → P (f b)) → preserves P (py_modify f).
Proof. intros Hf b. apply Hf. Qed.

Lemma preserves_bind {A B} (m : Py A) (k : A → Py B) :
  preserves P m → (∀ a, preserves P (k a)) → preserves P (py_bind m k).
Proof.
  intros Hm Hk b Hb. specialize (Hm b Hb). unfold after, py_bind in *.
  destruct (m b) as [[e|a] b']; simpl in *; [done|].
  by apply Hk.
Qed.

Lemma preserves_when c m : preserves P m → preserves P (py_when c m).
Proof. intros Hm. destruct c; [done|apply preserves_ret]. Qed.

Lemma preserves_getitem {V} (d : gmap string V) k :
  preserves P (py_getitem d k).
Proof.
  unfold py_getitem. destruct (d !! k);
    [apply preserves_ret|apply preserves_raise].
Qed.

Lemma preserves_for {A} (l : list A) body :
  (∀ x, preserves P (body x)) → preserves P (py_for l body).
Proof.
  intros Hbody. induction l as [|x l IH]; simpl; [apply preserves_ret|].
  apply preserves_bind; [apply Hbody|by intros _].
Qed.

Lemma preserves_for_live fuel i cur body :
  (∀ x, preserves P (body x)) → preserves P (py_for_live fuel i cur body).
Proof.
  intros Hbody. revert i.
  induction fuel as [|fuel IH]; intros i; simpl; [apply preserves_ret|].
  apply preserves_bind; [apply preserves_get|]. intros b.
  destruct (cur b !! i); [|apply preserves_ret].
  apply preserves_bind; [apply Hbody|]. intros _. apply IH.
Qed.

Lemma preserves_for_list cur body :
  (∀ x, preserves P (body x)) → preserves P (py_for_list cur body).
Proof.
  intros Hbody. apply preserves_bind; [apply preserves_get|].
  intros b. by apply preserves_for_live.
Qed.

End Preservation.

Lemma unique_ids_remove x m b :
  unique_ids b → unique_ids (set_orders (alter (remove_if_in x) m) b).
Proof.
  intros Hb m' l. unfold set_orders. simpl.
  destruct (decide (m = m')) as [->|Hne].
  - rewrite lookup_alter_eq. destruct (orders b !! m') as [l0|] eqn:Hl0; [|done].
    intros [= <-]. apply remove_if_in_NoDup. by eapply Hb.
  - rewrite lookup_alter_ne by done. apply Hb.
Qed.

Lemma unique_ids_events e b : unique_ids b → unique_ids (add_event e b).
Proof. done. Qed.

Lemma loadMarket_order_unique cur notify market x :
  preserves unique_ids (loadMarket_order cur notify market x).
Proof.
  unfold loadMarket_order.
  apply preserves_bind; [apply preserves_getitem|]. intros live.
  apply preserves_when, preserves_bind.
  - apply preserves_modify. intros b. apply unique_ids_remove.
  - intros _. apply preserves_when, preserves_modify.
    intros b. apply unique_ids_events.
Qed.

Lemma loadMarket_unique cfg dex notify :
  preserves unique_ids (loadMarket cfg dex notify).
Proof.
  unfold loadMarket. apply preserves_bind.
  - by apply preserves_modify.
  - intros _. apply preserves_for. intros market.
    apply preserves_bind; [apply preserves_get|]. intros b.
    apply preserves_when, preserves_for_list. intros x.
    apply loadMarket_order_unique.
Qed.

(** The inner loop of [loadMarket] never lengthens the list it walks ... *)
Lemma loadMarket_order_length cur notify market x b :
  (length (ledger_list market (after (loadMarket_order cur notify market x) b))
   ≤ length (ledger_list market b))%nat.
Proof.
  unfold after, loadMarket_order, py_getitem, py_bind.
  destruct (cur !! market) as [live|]; simpl; [|done].
  unfold py_when. case_bool_decide; simpl; [|done].
  assert (Hlen : (length (ledger_list market
                   (set_orders (alter (remove_if_in x) market) b))
                 ≤ length (ledger_list market b))%nat).
  { unfold ledger_list, set_orders. simpl. rewrite lookup_alter_eq.
    destruct (orders b !! market); simpl; [apply remove_if_in_length|done]. }
  by destruct notify.
Qed.

(** ... so the length at loop entry is fuel enough: more fuel changes
    nothing. *)
Lemma loadMarket_scan_fuel cur notify market fuel i b :
  (length (ledger_list market b) - i ≤ fuel)%nat →
  py_for_live (S fuel) i (ledger_list market)
    (loadMarket_order cur notify market) b
  = py_for_live fuel i (ledger_list market)
      (loadMarket_order cur notify market) b.
Proof.
  revert i b. induction fuel as [|fuel IH]; intros i b Hlen.
  - simpl. unfold py_bind, py_get.
    rewrite lookup_ge_None_2 by lia. done.
  - change (py_for_live (S (S fuel)) i (ledger_list market)
              (loadMarket_order cur notify market) b)
      with (match ledger_list market b !! i with
            | None => py_ret tt
            | Some x =>
                loadMarket_order cur notify market x ;;;
                py_for_live (S fuel) (S i) (ledger_list market)
                  (loadMarket_order cur notify market)
            end b).
    change (py_for_live (S fuel) i (ledger_list market)
              (loadMarket_order cur notify market) b)
      with (match ledger_list market b !! i with
            | None => py_ret tt
            | Some x =>
                loadMarket_order cur notify market x ;;;
                py_for_live fuel (S i) (ledger_list market)
                  (loadMarket_order cur notify market)
            end b).
    destruct (ledger_list market b !! i) as [x|] eqn:Hx; [|done].
    pose proof (loadMarket_order_length cur notify market x b) as Hle.
    apply lookup_lt_Some in Hx.
    unfold py_bind, after in *.
    destruct (loadMarket_order cur notify market x b) as [[e|[]] b'];
      simpl in *; [done|].
    apply IH. lia.
Qed.

Lemma loadMarket_scan_enough cur notify market extra b :
  py_for_live (length (ledger_list market b) + extra) 0 (ledger_list market)
    (loadMarket_order cur notify market) b
  = run (py_for_list (ledger_list market)
           (loadMarket_order cur notify market)) b.
Proof.
  unfold run, py_for_list, py_bind, py_get.
  induction extra as [|extra IH]; [by rewrite Nat.add_0_r|].
  rewrite Nat.add_succ_r, loadMarket_scan_fuel by lia. apply IH.
Qed.

Lemma _cancel_set_unique dex toCancel :
  preserves unique_ids (_cancel_set dex toCancel).
Proof.
  intros b Hb m l'. rewrite _cancel_set_orders.
  destruct (orders b !! m) as [l|] eqn:Hl; [|done].
  intros [= <-]. eapply sublist_NoDup; [by eapply Hb|apply remove_all_sublist].
Qed.

Lemma store_unique cfg dex b :
  NoDup (markets cfg) →
  (∀ m, m ∈ markets cfg →
     NoDup (new_ids (opened_orders b) (returnOpenOrdersIds dex) m)
     ∧ ∀ id, id ∈ new_ids (opened_orders b) (returnOpenOrdersIds dex) m →
             id ∉ ledger_list m b) →
  unique_ids b → unique_ids (after (store cfg dex) b).
Proof.
  intros Hnd Hnew Hb m l. destruct (store_run cfg dex b) as [d Hrun].
  unfold after. unfold run in Hrun. rewrite Hrun. simpl.
  destruct (decide (m ∈ markets cfg)) as [Hm|Hm].
  - rewrite adopt_all_served by done. intros [= <-].
    destruct (Hnew m Hm) as [Hfresh Hdisj].
    apply NoDup_app. split; [|split; [|done]].
    + unfold ledger_list in *. destruct (orders b !! m) as [l0|] eqn:Hl0.
      * by eapply Hb.
      * apply NoDup_nil_2.
    + intros id Hold Hin. by apply (Hdisj id).
  - rewrite adopt_all_other by done. apply Hb.
Qed.

(** C9, in the form the code satisfies.  The removals preserve uniqueness of the ids in every
    market list, for every gateway snapshot: reconciliation in [loadMarket]
    (also when it raises part-way) and the removal in [_cancel_set].
    [store] appends without a membership test; it preserves uniqueness when
    the served markets are listed once each and, for every served market,
    the ids it adopts are distinct and none of them is already recorded
    in [orders[m]]. *)
Theorem ledger_uniqueness cfg dex notify toCancel b :
  unique_ids b →
  unique_ids (after (loadMarket cfg dex notify) b)
  ∧ unique_ids (after (_cancel_set dex toCancel) b)
  ∧ (NoDup (markets cfg) →
     (∀ m, m ∈ markets cfg →
        NoDup (new_ids (opened_orders b) (returnOpenOrdersIds dex) m)
        ∧ ∀ id, id ∈ new_ids (opened_orders b) (returnOpenOrdersIds dex) m →
                id ∉ ledger_list m b) →
     unique_ids (after (store cfg dex) b)).
Proof.
  intros Hb. split; [by apply loadMarket_unique|].
  split; [by apply _cancel_set_unique|].
  intros Hnd Hnew. by apply store_unique.
Qed.

(** ** The code on concrete inputs *)

(** The example of the specification: with [orders["M"] = [a, b, c]] and
    live ids [a, c], reconciliation drops [b], announces it once and keeps
    [a] and [c]. *)
Example loadMarket_one_fill :
  let b := after (loadMarket (mkSettings ["M"] true)
                    (dex_ids {[ "M" := ["a"; "c"] ]}) true)
             (bot_with {[ "M" := ["a"; "b"; "c"] ]}) in
  orders b !! "M" = Some ["a"; "c"] ∧ events b = [OrderFilled "b"].
Proof. vm_compute. done. Qed.

(** C2.  Two recorded ids that are both gone from the gateway: removing
    [a] shifts [b] under the iterator, which then stops; [b] stays in the
    ledger and [orderFilled(b)] is not called. *)
Theorem loadMarket_misses_a_fill :
  let dex := dex_ids {[ "M" := [] ]} in
  let b := bot_with {[ "M" := ["a"; "b"] ]} in
  let b' := after (loadMarket (mkSettings ["M"] true) dex true) b in
  result (loadMarket (mkSettings ["M"] true) dex true) b = inr tt
  ∧ returnOpenOrdersIds dex !! "M" = Some []
  ∧ orders b' !! "M" = Some ["b"]
  ∧ events b' = [OrderFilled "a"].
Proof. vm_compute. done. Qed.

(** C3.  On the same input and with the gateway snapshot held fixed, the
    second run of [loadMarket] still removes [b] and announces it: two runs
    do not leave the ledger that one run leaves. *)
Theorem loadMarket_second_run_differs :
  let cfg := mkSettings ["M"] true in
  let dex := dex_ids {[ "M" := [] ]} in
  let b := bot_with {[ "M" := ["a"; "b"] ]} in
  let once := after (loadMarket cfg dex true) b in
  let twice := after (loadMarket cfg dex true) once in
  orders once !! "M" = Some ["b"]
  ∧ orders twice !! "M" = Some []
  ∧ emitted (loadMarket cfg dex true) b = [OrderFilled "a"]
  ∧ emitted (loadMarket cfg dex true) once = [OrderFilled "b"].
Proof. vm_compute. done. Qed.

(** C7.  A served market with a recorded id and no key in the gateway's
    id listing: [cur_orders[market]] raises [KeyError]; nothing is removed
    and nothing is announced. *)
Theorem loadMarket_absent_market_raises :
  let b := bot_with {[ "M" := ["a"] ]} in
  let r := run (loadMarket (mkSettings ["M"] true) (dex_ids ∅) true) b in
  r.1 = inl (KeyError "M")
  ∧ orders r.2 !! "M" = Some ["a"]
  ∧ events r.2 = [].
Proof. vm_compute. done. Qed.

(** C8.  Markets [M] and [N], the gateway snapshot has no key for [M] and
    one order in [N]: [cancel_all] skips [M] and cancels the order of [N];
    [cancel_mine] and [cancel_this_markets] raise [KeyError] at [M] and
    cancel nothing.  (Interned strings: identity is equality.) *)
Theorem cancel_absent_market_raises :
  let cfg := mkSettings ["M"; "N"] true in
  let dex := mkDex {[ "N" := [mkOrder "sell" "x"] ]} ∅ (λ _, false) in
  let b := bot_with {[ "N" := ["x"] ]} in
  run (cancel_all String.eqb cfg dex (MList ["M"; "N"]) "both") b
  = (inr 1, mkBot {[ "N" := [] ]} ∅ [DexCancel "x"; OrderCanceled "x"] None)
  ∧ run (cancel_mine String.eqb cfg dex (MList ["M"; "N"]) "both") b
    = (inl (KeyError "M"), b)
  ∧ run (cancel_this_markets String.eqb cfg dex (MList ["M"; "N"]) "both") b
    = (inl (KeyError "M"), b).
Proof. vm_compute. done. Qed.

Lemma unique_ids_singleton m l opened tr d :
  NoDup l → unique_ids (mkBot {[ m := l ]} opened tr d).
Proof.
  intros Hl m' l' Hm'. simpl in Hm'.
  apply lookup_singleton_Some in Hm' as [_ <-]. done.
Qed.

(** C1 at a sample input. *)
Lemma cancel_mine_ownership_witness :
  cancel_mine_plan String.eqb (returnOpenOrders dex_usd_bts)
    (orders (bot_with {[ "USD_BTS" := ["a"] ]})) "both"
    (effective_markets served_usd_bts MNone) ∅ = inr {[ "a" ]}
  ∧ (∀ id, id ∈ ({[ "a" ]} : gset string) →
       ∃ m mine, m ∈ effective_markets served_usd_bts MNone
                 ∧ orders (bot_with {[ "USD_BTS" := ["a"] ]}) !! m = Some mine
                 ∧ id ∈ mine)
  ∧ cancel_attempts
      (emitted (cancel_mine String.eqb served_usd_bts dex_usd_bts MNone "both")
         (bot_with {[ "USD_BTS" := ["a"] ]}))
    = elements ({[ "a" ]} : gset string).
Proof.
  assert (Hplan :
    cancel_mine_plan String.eqb (returnOpenOrders dex_usd_bts)
      (orders (bot_with {[ "USD_BTS" := ["a"] ]})) "both"
      (effective_markets served_usd_bts MNone) ∅ = inr {[ "a" ]}).
  { vm_compute. reflexivity. }
  split; [exact Hplan|].
  exact (cancel_mine_ownership String.eqb served_usd_bts dex_usd_bts
           (bot_with {[ "USD_BTS" := ["a"] ]}) MNone "both" {[ "a" ]} Hplan).
Defined.

(** C4 read as "a failed id stays in the ledger" fails: the gateway raises for [a], and [a] is gone from
    the list of [M] after the batch. *)
Lemma cancel_failure_keeps_id_counterexample :
  cancel_raises dex_failing "a" = true
  ∧ "a" ∈ ({[ "a" ]} : gset string)
  ∧ orders (bot_with {[ "M" := ["a"] ]}) !! "M" = Some ["a"]
  ∧ orders (after (_cancel_set dex_failing {[ "a" ]})
              (bot_with {[ "M" := ["a"] ]})) !! "M" = Some []
  ∧ ¬ (∃ l', orders (after (_cancel_set dex_failing {[ "a" ]})
                       (bot_with {[ "M" := ["a"] ]})) !! "M" = Some l'
             ∧ "a" ∈ l').
Proof.
  assert (Hafter : orders (after (_cancel_set dex_failing {[ "a" ]})
                             (bot_with {[ "M" := ["a"] ]})) !! "M" = Some []).
  { vm_compute. reflexivity. }
  split; [done|]. split; [by apply elem_of_singleton|].
  split; [by vm_compute|]. split; [exact Hafter|].
  intros (l' & Hl' & Hin). rewrite Hafter in Hl'. injection Hl' as <-.
  by destruct (not_elem_of_nil "a").
Qed.

(** C4, in the form the code satisfies, at a sample input. *)
Lemma cancel_failure_still_forgets_witness :
  occurrences "a"
    (canceled_callbacks
       (emitted (_cancel_set dex_failing {[ "a" ]})
          (bot_with {[ "M" := ["a"; "b"] ]}))) = 1
  ∧ LogCritical "a"
    ∈ emitted (_cancel_set dex_failing {[ "a" ]})
        (bot_with {[ "M" := ["a"; "b"] ]})
  ∧ ∃ l', orders (after (_cancel_set dex_failing {[ "a" ]})
                    (bot_with {[ "M" := ["a"; "b"] ]})) !! "M" = Some l'
          ∧ occurrences "a" l' = pred (occurrences "a" ["a"; "b"])
          ∧ l' `sublist_of` ["a"; "b"]
          ∧ (NoDup ["a"; "b"] → "a" ∉ l')
          ∧ ∀ dex', orders (after (_cancel_set dex' {[ "a" ]})
                              (bot_with {[ "M" := ["a"; "b"] ]})) !! "M" = Some l'.
Proof.
  apply (cancel_failure_still_forgets dex_failing {[ "a" ]}
           (bot_with {[ "M" := ["a"; "b"] ]}) "a" "M" ["a"; "b"]).
  - by apply elem_of_singleton.
  - reflexivity.
  - vm_compute. reflexivity.
Defined.

(** C5 at a sample input: three candidates, the gateway raises for [b]. *)
Lemma cancel_set_partial_failure_witness :
  result (_cancel_set dex_failing_b {[ "a"; "b"; "c" ]}) (bot_with ∅)
  = inr (size ({[ "a"; "b"; "c" ]} : gset string))
  ∧ (∀ id, id ∈ ({[ "a"; "b"; "c" ]} : gset string) →
       occurrences id
         (cancel_attempts
            (emitted (_cancel_set dex_failing_b {[ "a"; "b"; "c" ]}) (bot_with ∅)))
       = 1)
  ∧ (∀ id, id ∈ cancel_attempts
                  (emitted (_cancel_set dex_failing_b {[ "a"; "b"; "c" ]})
                     (bot_with ∅)) →
       id ∈ ({[ "a"; "b"; "c" ]} : gset string))
  ∧ LogCritical "b"
    ∈ emitted (_cancel_set dex_failing_b {[ "a"; "b"; "c" ]}) (bot_with ∅).
Proof.
  apply (cancel_set_partial_failure dex_failing_b {[ "a"; "b"; "c" ]}
           (bot_with ∅) "b").
  - apply elem_of_union_l, elem_of_union_r. by apply elem_of_singleton.
  - intros id _. simpl. apply bool_decide_eq_true.
Defined.



(** C9 fails for [store]: a bot with an empty ledger stores while
    the order [d] is open, and stores again: [d] is recorded twice. *)
Lemma store_breaks_uniqueness_counterexample :
  unique_ids (bot_with ∅)
  ∧ unique_ids (after (store served_M dex_d) (bot_with ∅))
  ∧ orders (after (store served_M dex_d)
              (after (store served_M dex_d) (bot_with ∅))) !! "M"
    = Some ["d"; "d"]
  ∧ ¬ unique_ids (after (store served_M dex_d)
                    (after (store served_M dex_d) (bot_with ∅))).
Proof.
  assert (Htwice : orders (after (store served_M dex_d)
                      (after (store served_M dex_d) (bot_with ∅))) !! "M"
                   = Some ["d"; "d"]) by (vm_compute; reflexivity).
  split; [|split; [|split; [exact Htwice|]]].
  - intros m l Hm. simpl in Hm. by rewrite lookup_empty in Hm.
  - change (after (store served_M dex_d) (bot_with ∅))
      with (mkBot {[ "M" := ["d"] ]} ∅ [OrderPlaced "d"] None).
    apply unique_ids_singleton, NoDup_singleton.
  - intros Hu. specialize (Hu "M" _ Htwice).
    apply NoDup_cons in Hu as [Hd _]. apply Hd. left.
Qed.

(** C9, in the form the code satisfies, at a sample input: the ledger holds [a], the gateway
    lists [a] and the new order [d]. *)
Lemma ledger_uniqueness_witness :
  unique_ids (mkBot {[ "M" := ["a"] ]} {[ "M" := ["a"] ]} [] None)
  ∧ unique_ids (after (loadMarket served_M (dex_ids {[ "M" := ["a"; "d"] ]}) true)
                  (mkBot {[ "M" := ["a"] ]} {[ "M" := ["a"] ]} [] None))
  ∧ unique_ids (after (_cancel_set (dex_ids {[ "M" := ["a"; "d"] ]}) {[ "a" ]})
                  (mkBot {[ "M" := ["a"] ]} {[ "M" := ["a"] ]} [] None))
  ∧ unique_ids (after (store served_M (dex_ids {[ "M" := ["a"; "d"] ]}))
                  (mkBot {[ "M" := ["a"] ]} {[ "M" := ["a"] ]} [] None)).
Proof.
  assert (Hb : unique_ids (mkBot {[ "M" := ["a"] ]} {[ "M" := ["a"] ]} [] None))
    by apply unique_ids_singleton, NoDup_singleton.
  destruct (ledger_uniqueness served_M (dex_ids {[ "M" := ["a"; "d"] ]}) true
              {[ "a" ]} _ Hb) as (Hload & Hcancel & Hstore).
  split; [exact Hb|]. split; [exact Hload|]. split; [exact Hcancel|].
  apply Hstore.
  - apply NoDup_singleton.
  - intros m Hm. apply list_elem_of_singleton in Hm as ->.
    change (new_ids (opened_orders (mkBot {[ "M" := ["a"] ]} {[ "M" := ["a"] ]} [] None))
              (returnOpenOrdersIds (dex_ids {[ "M" := ["a"; "d"] ]})) "M")
      with ["d"].
    split; [apply NoDup_singleton|].
    intros id Hid. apply list_elem_of_singleton in Hid as ->.
    change (ledger_list "M" (mkBot {[ "M" := ["a"] ]} {[ "M" := ["a"] ]} [] None))
      with ["a"].
    intros Hin. by apply list_elem_of_singleton in Hin.
Defined.

(** C10 at a sample input: one market, [USD_BTS], with a sell order. *)
Lemma cancel_all_sell_orders_selects_nothing_witness :
  effective_markets served_usd_bts (MStr "sell") = ["s"; "e"; "l"; "l"]
  ∧ cancel_all_plan String.eqb (returnOpenOrders dex_usd_bts) "both"
      (effective_markets served_usd_bts (MStr "sell")) ∅ = ∅
  ∧ run (cancel_all_sell_orders String.eqb served_usd_bts dex_usd_bts)
        (bot_with {[ "USD_BTS" := ["a"] ]})
    = (inr 0, bot_with {[ "USD_BTS" := ["a"] ]}).
Proof.
  apply (cancel_all_sell_orders_selects_nothing String.eqb served_usd_bts
           dex_usd_bts (bot_with {[ "USD_BTS" := ["a"] ]})).
  intros m [os Hm]. simpl in Hm.
  apply lookup_singleton_Some in Hm as [<- _]. simpl. lia.
Defined.

(** * Further properties of the code *)

(** ** What the three scopes select *)

Section ScopeSelection.

Variable py_is : string → string → bool.

Lemma add_side_elem_of side acc os id :
  id ∈ add_side py_is side acc os
  ↔ id ∈ acc
    ∨ ∃ o, o ∈ os ∧ orderNumber o = id
           ∧ side_matches py_is (o_type o) side = true.
Proof.
  unfold add_side. revert acc.
  induction os as [|o os IH]; intros acc; simpl.
  - split; [by left|]. intros [?|(o & Ho & _)]; [done|].
    by destruct (not_elem_of_nil o).
  - rewrite IH. destruct (side_matches py_is (o_type o) side) eqn:Hside.
    + rewrite elem_of_union, elem_of_singleton. split.
      * intros [[? | ->]|(o' & ? & ? & ?)]; [by left| |].
        -- right. exists o. split; [left|done].
        -- right. exists o'. split; [by right|done].
      * intros [?|(o' & Ho' & <- & ?)]; [by left; left|].
        apply elem_of_cons in Ho' as [-> | ?]; [by left; right|].
        right. by exists o'.
    + split.
      * intros [?|(o' & ? & ? & ?)]; [by left|].
        right. exists o'. split; [by right|done].
      * intros [?|(o' & Ho' & <- & Hm)]; [by left|].
        apply elem_of_cons in Ho' as [-> | ?]; [congruence|].
        right. by exists o'.
Qed.

Lemma add_mine_elem_of_iff state_orders m side acc os id :
  id ∈ add_mine py_is state_orders m side acc os
  ↔ id ∈ acc
    ∨ ∃ mine o, state_orders !! m = Some mine ∧ id ∈ mine
                ∧ o ∈ os ∧ orderNumber o = id
                ∧ side_matches py_is (o_type o) side = true.
Proof.
  unfold add_mine. revert acc.
  induction os as [|o os IH]; intros acc; simpl.
  - split; [by left|]. intros [?|(mine & o & _ & _ & Ho & _)]; [done|].
    by destruct (not_elem_of_nil o).
  - rewrite IH. clear IH. destruct (state_orders !! m) as [mine|] eqn:Hm.
    2:{ split; [|intros [?|(? & ? & ? & _)]; [by left|done]].
        intros [?|(? & ? & ? & _)]; [by left|done]. }
    destruct (decide (orderNumber o ∈ mine)) as [Hin|Hin].
    + rewrite bool_decide_eq_true_2 by done.
      destruct (side_matches py_is (o_type o) side) eqn:Hside.
      * rewrite elem_of_union, elem_of_singleton. split.
        -- intros [[? | ->]|(mine' & o' & ? & ? & ? & ? & ?)]; [by left| |].
           ++ right. exists mine, o. repeat split; try done. left.
           ++ right. exists mine', o'. repeat split; try done. by right.
        -- intros [?|(mine' & o' & ? & ? & Ho' & <- & ?)]; [by left; left|].
           apply elem_of_cons in Ho' as [-> | ?]; [by left; right|].
           right. by exists mine', o'.
      * split.
        -- intros [?|(mine' & o' & ? & ? & ? & ? & ?)]; [by left|].
           right. exists mine', o'. repeat split; try done. by right.
        -- intros [?|(mine' & o' & ? & ? & Ho' & <- & ?)]; [by left|].
           apply elem_of_cons in Ho' as [-> | ?]; [congruence|].
           right. by exists mine', o'.
    + rewrite bool_decide_eq_false_2 by done. split.
      * intros [?|(mine' & o' & ? & ? & ? & ? & ?)]; [by left|].
        right. exists mine', o'. repeat split; try done. by right.
      * intros [?|(mine' & o' & Hm' & Hid & Ho' & <- & ?)]; [by left|].
        apply elem_of_cons in Ho' as [-> | ?]; [congruence|].
        right. by exists mine', o'.
Qed.

Lemma cancel_all_plan_elem_of curOrders side ms acc id :
  id ∈ cancel_all_plan py_is curOrders side ms acc
  ↔ id ∈ acc
    ∨ ∃ m os o, m ∈ ms ∧ curOrders !! m = Some os ∧ o ∈ os
                ∧ orderNumber o = id
                ∧ side_matches py_is (o_type o) side = true.
Proof.
  revert acc. induction ms as [|m ms IH]; intros acc; simpl.
  - split; [by left|]. intros [?|(m & ? & ? & Hm & _)]; [done|].
    by destruct (not_elem_of_nil m).
  - destruct (curOrders !! m) as [os|] eqn:Hos; rewrite IH; clear IH.
    + rewrite add_side_elem_of. split.
      * intros [[?|(o & ? & ? & ?)]|(m' & os' & o & ? & ? & ? & ? & ?)].
        -- by left.
        -- right. exists m, os, o. repeat split; try done. left.
        -- right. exists m', os', o. repeat split; try done. by right.
      * intros [?|(m' & os' & o & Hm' & Hos' & ? & ? & ?)]; [by left; left|].
        apply elem_of_cons in Hm' as [-> | ?].
        -- left. right. exists o. rewrite Hos in Hos'. by injection Hos' as <-.
        -- right. by exists m', os', o.
    + split.
      * intros [?|(m' & os' & o & ? & ? & ? & ? & ?)]; [by left|].
        right. exists m', os', o. repeat split; try done. by right.
      * intros [?|(m' & os' & o & Hm' & Hos' & ? & ? & ?)]; [by left|].
        apply elem_of_cons in Hm' as [-> | ?]; [congruence|].
        right. by exists m', os', o.
Qed.

Lemma cancel_mine_plan_elem_of_iff curOrders state_orders side ms acc toCancel id :
  cancel_mine_plan py_is curOrders state_orders side ms acc = inr toCancel →
  id ∈ toCancel
  ↔ id ∈ acc
    ∨ ∃ m os o mine, m ∈ ms ∧ curOrders !! m = Some os ∧ o ∈ os
                     ∧ orderNumber o = id
                     ∧ state_orders !! m = Some mine ∧ id ∈ mine
                     ∧ side_matches py_is (o_type o) side = true.
Proof.
  revert acc. induction ms as [|m ms IH]; intros acc; simpl.
  - intros [= ->]. split; [by left|].
    intros [?|(m & ? & ? & ? & Hm & _)]; [done|].
    by destruct (not_elem_of_nil m).
  - destruct (curOrders !! m) as [os|] eqn:Hos; [|done].
    intros Hplan. rewrite (IH _ Hplan), add_mine_elem_of_iff. clear IH Hplan.
    split.
    + intros [[?|(mine & o & ? & ? & ? & ? & ?)]
             |(m' & os' & o & mine & ? & ? & ? & ? & ? & ? & ?)].
      * by left.
      * right. exists m, os, o, mine. repeat split; try done. left.
      * right. exists m', os', o, mine. repeat split; try done. by right.
    + intros [?|(m' & os' & o & mine & Hm' & Hos' & ? & ? & ? & ? & ?)];
        [by left; left|].
      apply elem_of_cons in Hm' as [-> | ?].
      * left. right. exists mine, o. rewrite Hos in Hos'.
        by injection Hos' as <-.
      * right. by exists m', os', o, mine.
Qed.

Lemma cancel_this_markets_plan_all curOrders side ms acc :
  Forall (λ m, is_Some (curOrders !! m)) ms →
  cancel_this_markets_plan py_is curOrders side ms acc
  = inr (cancel_all_plan py_is curOrders side ms acc).
Proof.
  intros Hall. revert acc.
  induction Hall as [|m ms [os Hm] _ IH]; intros acc; simpl; [done|].
  rewrite Hm. apply IH.
Qed.

Lemma cancel_mine_plan_raises curOrders state_orders side ms acc k :
  cancel_mine_plan py_is curOrders state_orders side ms acc = inl (KeyError k)
  ↔ first_absent curOrders ms k.
Proof.
  revert acc. induction ms as [|m ms IH]; intros acc; simpl.
  - split; [done|]. intros (pre & post & Hms & _). by destruct pre.
  - destruct (curOrders !! m) as [os|] eqn:Hos.
    + rewrite IH. split.
      * intros (pre & post & -> & Hpre & Hk).
        exists (m :: pre), post. split; [done|]. split; [|done].
        constructor; [by rewrite Hos|done].
      * intros (pre & post & Hms & Hpre & Hk).
        destruct pre as [|m' pre]; simpl in Hms.
        -- injection Hms as -> ->. congruence.
        -- injection Hms as -> ->. apply Forall_cons in Hpre as [_ Hpre].
           by exists pre, post.
    + split.
      * intros [= ->]. by exists [], ms.
      * intros (pre & post & Hms & Hpre & Hk).
        destruct pre as [|m' pre]; simpl in Hms.
        -- by injection Hms as -> ->.
        -- injection Hms as -> ->. apply Forall_cons in Hpre as [[? Hm] _].
           congruence.
Qed.

Lemma cancel_this_markets_plan_raises curOrders side ms acc k :
  cancel_this_markets_plan py_is curOrders side ms acc = inl (KeyError k)
  ↔ first_absent curOrders ms k.
Proof.
  revert acc. induction ms as [|m ms IH]; intros acc; simpl.
  - split; [done|]. intros (pre & post & Hms & _). by destruct pre.
  - destruct (curOrders !! m) as [os|] eqn:Hos.
    + rewrite IH. split.
      * intros (pre & post & -> & Hpre & Hk).
        exists (m :: pre), post. split; [done|]. split; [|done].
        constructor; [by rewrite Hos|done].
      * intros (pre & post & Hms & Hpre & Hk).
        destruct pre as [|m' pre]; simpl in Hms.
        -- injection Hms as -> ->. congruence.
        -- injection Hms as -> ->. apply Forall_cons in Hpre as [_ Hpre].
           by exists pre, post.
    + split.
      * intros [= ->]. by exists [], ms.
      * intros (pre & post & Hms & Hpre & Hk).
        destruct pre as [|m' pre]; simpl in Hms.
        -- by injection Hms as -> ->.
        -- injection Hms as -> ->. apply Forall_cons in Hpre as [[? Hm] _].
           congruence.
Qed.

End ScopeSelection.

Section ScopeBehaviour.

Variable py_is : string → string → bool.

Lemma cancel_all_sent cfg dex ms side b :
  cancel_attempts (emitted (cancel_all py_is cfg dex ms side) b)
  = elements (cancel_all_plan py_is (returnOpenOrders dex) side
                (effective_markets cfg ms) ∅).
Proof.
  unfold cancel_all. by rewrite _cancel_set_emitted, cancel_attempts_events.
Qed.

Lemma cancel_mine_run cfg dex ms side b :
  run (cancel_mine py_is cfg dex ms side) b
  = match cancel_mine_plan py_is (returnOpenOrders dex) (orders b) side
            (effective_markets cfg ms) ∅ with
    | inl e => (inl e, b)
    | inr toCancel => run (_cancel_set dex toCancel) b
    end.
Proof.
  unfold run, cancel_mine, py_bind, py_get.
  by destruct (cancel_mine_plan _ _ _ _ _ _).
Qed.

Lemma cancel_this_markets_run cfg dex ms side b :
  run (cancel_this_markets py_is cfg dex ms side) b
  = match cancel_this_markets_plan py_is (returnOpenOrders dex) side
            (effective_markets cfg ms) ∅ with
    | inl e => (inl e, b)
    | inr toCancel => run (_cancel_set dex toCancel) b
    end.
Proof.
  unfold run, cancel_this_markets.
  by destruct (cancel_this_markets_plan _ _ _ _ _).
Qed.

Lemma cancel_mine_emitted cfg dex ms side b :
  emitted (cancel_mine py_is cfg dex ms side) b
  = match cancel_mine_plan py_is (returnOpenOrders dex) (orders b) side
            (effective_markets cfg ms) ∅ with
    | inl _ => []
    | inr toCancel => flat_map (cancel_events dex) (elements toCancel)
    end.
Proof.
  apply emitted_app. unfold after.
  fold (run (cancel_mine py_is cfg dex ms side) b). rewrite cancel_mine_run.
  destruct (cancel_mine_plan _ _ _ _ _ _); simpl; [by rewrite app_nil_r|].
  by rewrite _cancel_set_run.
Qed.

Lemma emitted_unchanged {A} (m : Py A) b r :
  run m b = (r, b) → emitted m b = [].
Proof.
  intros Hrun. unfold emitted, after. unfold run in Hrun. rewrite Hrun.
  simpl. by rewrite drop_all.
Qed.

(** X1.  What [cancel_all] cancels: it returns normally with the number of
    cancel requests it sent, sends each id once, and the ids sent are
    exactly the order numbers of the open orders of the walked markets that
    have a key in the gateway snapshot and pass the side test. *)
Theorem cancel_all_selection cfg dex ms side b :
  result (cancel_all py_is cfg dex ms side) b
  = inr (length (cancel_attempts (emitted (cancel_all py_is cfg dex ms side) b)))
  ∧ NoDup (cancel_attempts (emitted (cancel_all py_is cfg dex ms side) b))
  ∧ ∀ id,
      id ∈ cancel_attempts (emitted (cancel_all py_is cfg dex ms side) b)
      ↔ ∃ m os o, m ∈ effective_markets cfg ms
                  ∧ returnOpenOrders dex !! m = Some os ∧ o ∈ os
                  ∧ orderNumber o = id
                  ∧ side_matches py_is (o_type o) side = true.
Proof.
  rewrite cancel_all_sent. split; [|split].
  - unfold result, cancel_all.
    fold (run (_cancel_set dex
                 (cancel_all_plan py_is (returnOpenOrders dex) side
                    (effective_markets cfg ms) ∅)) b).
    by rewrite _cancel_set_run.
  - apply NoDup_elements.
  - intros id. rewrite elem_of_elements, cancel_all_plan_elem_of.
    split; [|by right]. intros [Hid|?]; [|done].
    by apply not_elem_of_empty in Hid.
Qed.

(** X2.  What [cancel_mine] cancels when every walked market has a key in
    the gateway snapshot: it returns the number of requests sent, each id
    once, and the ids are exactly the order numbers that are open in a
    walked market, pass the side test, and are recorded in the ledger under
    that same market. *)
Theorem cancel_mine_selection cfg dex ms side b :
  Forall (λ m, is_Some (returnOpenOrders dex !! m)) (effective_markets cfg ms) →
  result (cancel_mine py_is cfg dex ms side) b
  = inr (length (cancel_attempts (emitted (cancel_mine py_is cfg dex ms side) b)))
  ∧ NoDup (cancel_attempts (emitted (cancel_mine py_is cfg dex ms side) b))
  ∧ ∀ id,
      id ∈ cancel_attempts (emitted (cancel_mine py_is cfg dex ms side) b)
      ↔ ∃ m os o mine, m ∈ effective_markets cfg ms
                       ∧ returnOpenOrders dex !! m = Some os ∧ o ∈ os
                       ∧ orderNumber o = id
                       ∧ orders b !! m = Some mine ∧ id ∈ mine
                       ∧ side_matches py_is (o_type o) side = true.
Proof.
  intros Hall.
  destruct (cancel_mine_plan_total py_is _ (orders b) side _ ∅ Hall)
    as [toCancel Hplan].
  assert (Hsent : cancel_attempts (emitted (cancel_mine py_is cfg dex ms side) b)
                  = elements toCancel).
  { by rewrite cancel_mine_emitted, Hplan, cancel_attempts_events. }
  rewrite Hsent. split; [|split].
  - unfold result. fold (run (cancel_mine py_is cfg dex ms side) b).
    by rewrite cancel_mine_run, Hplan, _cancel_set_run.
  - apply NoDup_elements.
  - intros id.
    rewrite elem_of_elements, (cancel_mine_plan_elem_of_iff py_is _ _ _ _ _ _ _ Hplan).
    split; [|by right]. intros [Hid|?]; [|done].
    by apply not_elem_of_empty in Hid.
Qed.

(** X3.  When every walked market has a key in the gateway snapshot,
    [cancel_this_markets] does exactly what [cancel_all] does with the same
    arguments: same result, same bot, same trace. *)
Theorem cancel_this_markets_as_cancel_all cfg dex ms side b :
  Forall (λ m, is_Some (returnOpenOrders dex !! m)) (effective_markets cfg ms) →
  run (cancel_this_markets py_is cfg dex ms side) b
  = run (cancel_all py_is cfg dex ms side) b.
Proof.
  intros Hall. rewrite cancel_this_markets_run.
  by rewrite cancel_this_markets_plan_all.
Qed.

(** X4.  The error behaviour of [cancel_mine] and [cancel_this_markets]:
    each raises [KeyError(k)] exactly when [k] is the first walked market
    without a key in the gateway snapshot, and then it has sent no cancel
    request and left the bot as it was; markets walked before [k] are not
    cancelled either. *)
Theorem cancel_scopes_key_error cfg dex ms side b k :
  (run (cancel_mine py_is cfg dex ms side) b = (inl (KeyError k), b)
   ↔ first_absent (returnOpenOrders dex) (effective_markets cfg ms) k)
  ∧ (run (cancel_this_markets py_is cfg dex ms side) b = (inl (KeyError k), b)
     ↔ first_absent (returnOpenOrders dex) (effective_markets cfg ms) k)
  ∧ (result (cancel_mine py_is cfg dex ms side) b = inl (KeyError k)
     ↔ first_absent (returnOpenOrders dex) (effective_markets cfg ms) k)
  ∧ (result (cancel_this_markets py_is cfg dex ms side) b = inl (KeyError k)
     ↔ first_absent (returnOpenOrders dex) (effective_markets cfg ms) k).
Proof.
  pose proof (cancel_mine_plan_raises py_is (returnOpenOrders dex) (orders b)
                side (effective_markets cfg ms) ∅ k) as Hm.
  pose proof (cancel_this_markets_plan_raises py_is (returnOpenOrders dex)
                side (effective_markets cfg ms) ∅ k) as Ht.
  unfold result.
  fold (run (cancel_mine py_is cfg dex ms side) b).
  fold (run (cancel_this_markets py_is cfg dex ms side) b).
  rewrite cancel_mine_run, cancel_this_markets_run.
  split; [|split; [|split]].
  - rewrite <- Hm. destruct (cancel_mine_plan _ _ _ _ _ _);
      rewrite ?_cancel_set_run; simpl; split; intros; simplify_eq; done.
  - rewrite <- Ht. destruct (cancel_this_markets_plan _ _ _ _ _);
      rewrite ?_cancel_set_run; simpl; split; intros; simplify_eq; done.
  - rewrite <- Hm. destruct (cancel_mine_plan _ _ _ _ _ _);
      rewrite ?_cancel_set_run; simpl; split; intros; simplify_eq; done.
  - rewrite <- Ht. destruct (cancel_this_markets_plan _ _ _ _ _);
      rewrite ?_cancel_set_run; simpl; split; intros; simplify_eq; done.
Qed.

(** X5.  [cancel_mine] never asks the gateway to cancel an order that
    [cancel_all] with the same arguments would leave alone. *)
Theorem cancel_mine_within_cancel_all cfg dex ms side b id :
  id ∈ cancel_attempts (emitted (cancel_mine py_is cfg dex ms side) b) →
  id ∈ cancel_attempts (emitted (cancel_all py_is cfg dex ms side) b).
Proof.
  rewrite cancel_all_sent, cancel_mine_emitted.
  destruct (cancel_mine_plan py_is (returnOpenOrders dex) (orders b) side
              (effective_markets cfg ms) ∅) as [e|toCancel] eqn:Hplan; simpl.
  - intros Hid. by destruct (not_elem_of_nil id).
  - rewrite cancel_attempts_events, !elem_of_elements.
    rewrite (cancel_mine_plan_elem_of_iff py_is _ _ _ _ _ _ _ Hplan).
    rewrite cancel_all_plan_elem_of.
    intros [?|(m & os & o & mine & ? & ? & ? & ? & ? & ? & ?)]; [by left|].
    right. by exists m, os, o.
Qed.

End ScopeBehaviour.

(** ** More on batch cancellation *)

Lemma occurrences_elements (x : string) (X : gset string) :
  occurrences x (elements X) = if decide (x ∈ X) then 1 else 0.
Proof.
  destruct (decide (x ∈ X)) as [Hx|Hx].
  - apply occurrences_NoDup; [apply NoDup_elements|by apply elem_of_elements].
  - apply occurrences_0. by rewrite elem_of_elements.
Qed.

Lemma critical_logs_events dex ids :
  critical_logs (flat_map (cancel_events dex) ids)
  = filter (λ id, cancel_raises dex id = true) ids.
Proof.
  induction ids as [|id ids IH]; [done|].
  change (flat_map (cancel_events dex) (id :: ids))
    with (cancel_events dex id ++ flat_map (cancel_events dex) ids).
  unfold critical_logs in *. rewrite omap_app, IH, filter_cons.
  unfold cancel_events.
  by destruct (cancel_raises dex id).
Qed.

(** X6.  What [_cancel_set] does to the ledger and what it leaves alone:
    in every market list each candidate loses one occurrence (if it has
    one) and every other id keeps all of its occurrences; no market key is
    added or dropped, not even one whose list becomes empty; the previous
    snapshot [opened_orders] and the stored state are untouched. *)
Theorem cancel_set_ledger_effect dex toCancel b :
  (∀ m x,
     occurrences x (ledger_list m (after (_cancel_set dex toCancel) b))
     = occurrences x (ledger_list m b) - (if decide (x ∈ toCancel) then 1 else 0))
  ∧ (∀ m, is_Some (orders (after (_cancel_set dex toCancel) b) !! m)
          ↔ is_Some (orders b !! m))
  ∧ opened_orders (after (_cancel_set dex toCancel) b) = opened_orders b
  ∧ disk (after (_cancel_set dex toCancel) b) = disk b.
Proof.
  split; [|split; [|split]].
  - intros m x. unfold ledger_list. rewrite _cancel_set_orders.
    destruct (orders b !! m) as [l|]; simpl.
    + by rewrite remove_all_occurrences, occurrences_elements.
    + rewrite occurrences_nil. lia.
  - intros m. rewrite _cancel_set_orders. by rewrite fmap_is_Some.
  - unfold after. fold (run (_cancel_set dex toCancel) b).
    by rewrite _cancel_set_run.
  - unfold after. fold (run (_cancel_set dex toCancel) b).
    by rewrite _cancel_set_run.
Qed.

(** X7.  The callbacks and log lines of [_cancel_set]: [orderCanceled] is
    called for the same ids, in the same order, as the cancel requests sent,
    once per candidate and for candidates only, whether or not the request
    raised; a critical line is logged exactly for the candidates whose
    request raised. *)
Theorem cancel_set_callbacks dex toCancel b :
  canceled_callbacks (emitted (_cancel_set dex toCancel) b)
  = cancel_attempts (emitted (_cancel_set dex toCancel) b)
  ∧ NoDup (canceled_callbacks (emitted (_cancel_set dex toCancel) b))
  ∧ (∀ id, id ∈ canceled_callbacks (emitted (_cancel_set dex toCancel) b)
           ↔ id ∈ toCancel)
  ∧ (∀ id, id ∈ critical_logs (emitted (_cancel_set dex toCancel) b)
           ↔ id ∈ toCancel ∧ cancel_raises dex id = true).
Proof.
  rewrite _cancel_set_emitted, canceled_callbacks_events,
    cancel_attempts_events, critical_logs_events.
  split; [done|]. split; [apply NoDup_elements|]. split.
  - intros id. apply elem_of_elements.
  - intros id. rewrite list_elem_of_filter, elem_of_elements. tauto.
Qed.

(** ** The side-named aliases *)

Lemma py_chars_length s m : m ∈ py_chars s → String.length m = 1.
Proof.
  induction s as [|c s IH]; simpl; intros Hm.
  - by destruct (not_elem_of_nil m).
  - apply elem_of_cons in Hm as [->|Hm]; [done|by apply IH].
Qed.

Section Aliases.

Variable py_is : string → string → bool.

Lemma cancel_all_string_run cfg dex s side b :
  s ≠ "" →
  (∀ m, is_Some (returnOpenOrders dex !! m) → (2 ≤ String.length m)%nat) →
  run (cancel_all py_is cfg dex (MStr s) side) b = (inr 0, b).
Proof.
  intros Hs Hkeys. unfold cancel_all, effective_markets. simpl.
  rewrite bool_decide_eq_false_2 by done.
  rewrite cancel_all_plan_none, _cancel_set_run.
  - rewrite size_empty, elements_empty. simpl.
    by rewrite app_nil_r, bot_eta.
  - apply Forall_forall. intros m Hm.
    destruct (returnOpenOrders dex !! m) as [os|] eqn:Hos; [|done].
    assert (2 ≤ String.length m)%nat as Hlen by (apply Hkeys; by rewrite Hos).
    apply py_chars_length in Hm. lia.
Qed.

(** X8.  A non-empty string passed as [markets] to [cancel_all] is walked
    letter by letter: when no key of the gateway snapshot is a single
    character, nothing is selected, no request is sent, the bot is unchanged
    and 0 is returned.  This is what [cancel_all_buy_orders],
    [cancel_all_bid_orders] and [cancel_all_ask_orders] do. *)
Theorem cancel_all_string_markets cfg dex s side b :
  s ≠ "" →
  (∀ m, is_Some (returnOpenOrders dex !! m) → (2 ≤ String.length m)%nat) →
  run (cancel_all py_is cfg dex (MStr s) side) b = (inr 0, b)
  ∧ run (cancel_all_buy_orders py_is cfg dex) b = (inr 0, b)
  ∧ run (cancel_all_bid_orders py_is cfg dex) b = (inr 0, b)
  ∧ run (cancel_all_ask_orders py_is cfg dex) b = (inr 0, b).
Proof.
  intros Hs Hkeys. split; [by apply cancel_all_string_run|].
  split; [|split]; by apply cancel_all_string_run.
Qed.

(** X9.  [cancel_my_sell_orders] and [cancel_my_buy_orders] pass their
    side as [markets] to [cancel_mine], which reads the snapshot unguarded:
    when no key of the gateway snapshot is a single character they raise
    [KeyError] for the first letter, ["s"] and ["b"], and cancel nothing. *)
Theorem cancel_my_side_orders_raise cfg dex b :
  (∀ m, is_Some (returnOpenOrders dex !! m) → (2 ≤ String.length m)%nat) →
  run (cancel_my_sell_orders py_is cfg dex) b = (inl (KeyError "s"), b)
  ∧ run (cancel_my_buy_orders py_is cfg dex) b = (inl (KeyError "b"), b).
Proof.
  intros Hkeys.
  assert (Hnone : ∀ m, String.length m = 1 → returnOpenOrders dex !! m = None).
  { intros m Hm. destruct (returnOpenOrders dex !! m) as [os|] eqn:Hos; [|done].
    assert (2 ≤ String.length m)%nat by (apply Hkeys; by rewrite Hos). lia. }
  unfold cancel_my_sell_orders, cancel_my_buy_orders.
  rewrite !cancel_mine_run. unfold effective_markets. simpl.
  by rewrite !Hnone.
Qed.

End Aliases.

(** X10.  The single-id [cancel] against the batch when the gateway raises
    for the id: both send one cancel request and log one critical line;
    [_cancel_set] then returns 1 and forgets the id, while [cancel] reads its
    unassigned local and raises [UnboundLocalError], leaving the ledger, the
    previous snapshot and the stored state as they were. *)
Theorem cancel_single_failure {V} dex (value : string → V) id b :
  cancel_raises dex id = true →
  (cancel dex value id b).1 = inl (UnboundLocalError "cancel")
  ∧ orders (cancel dex value id b).2 = orders b
  ∧ opened_orders (cancel dex value id b).2 = opened_orders b
  ∧ disk (cancel dex value id b).2 = disk b
  ∧ events (cancel dex value id b).2 = events b ++ [DexCancel id; LogCritical id]
  ∧ result (_cancel_set dex {[ id ]}) b = inr 1
  ∧ emitted (_cancel_set dex {[ id ]}) b
    = [DexCancel id; LogCritical id; OrderCanceled id].
Proof.
  intros Hr. unfold cancel. rewrite Hr. simpl.
  rewrite <- app_assoc. repeat split; try done.
  - unfold result. fold (run (_cancel_set dex {[ id ]}) b).
    by rewrite _cancel_set_run, size_singleton.
  - rewrite _cancel_set_emitted, elements_singleton. simpl.
    unfold cancel_events. by rewrite Hr.
Qed.

(** When the gateway does not raise, [cancel] returns what the gateway
    returned and changes nothing but the trace. *)
Lemma cancel_single_success {V} dex (value : string → V) id b :
  cancel_raises dex id = false →
  cancel dex value id b = (inr (value id), add_event (DexCancel id) b).
Proof. intros Hr. unfold cancel. by rewrite Hr. Qed.

(** ** More on placement bookkeeping *)

Lemma store_run_disk cfg dex b :
  run (store cfg dex) b
  = (inr tt,
     mkBot (adopt_all (opened_orders b) (returnOpenOrdersIds dex)
              (markets cfg) (orders b))
           (opened_orders b)
           (events b
              ++ flat_map (λ m, OrderPlaced <$>
                             new_ids (opened_orders b) (returnOpenOrdersIds dex) m)
                   (markets cfg))
           (if safe_mode cfg then disk b
            else Some (adopt_all (opened_orders b) (returnOpenOrdersIds dex)
                         (markets cfg) (orders b)))).
Proof.
  unfold run, store. unfold py_bind at 1. rewrite store_loop_run.
  by destruct (safe_mode cfg).
Qed.

Lemma adopt_all_is_Some opened cur ms os m :
  m ∈ ms ∨ is_Some (os !! m) → is_Some (adopt_all opened cur ms os !! m).
Proof.
  unfold adopt_all. revert os.
  induction ms as [|m' ms IH]; intros os [Hm|Hm]; simpl.
  - by destruct (not_elem_of_nil m).
  - done.
  - apply elem_of_cons in Hm as [->|Hm].
    + apply IH. right. by rewrite lookup_insert_eq.
    + apply IH. by left.
  - apply IH. right. destruct (decide (m' = m)) as [->|Hne].
    + by rewrite lookup_insert_eq.
    + by rewrite lookup_insert_ne.
Qed.

Lemma adopt_all_prefix opened cur ms os m :
  default [] (os !! m) `prefix_of` default [] (adopt_all opened cur ms os !! m).
Proof.
  unfold adopt_all. revert os.
  induction ms as [|m' ms IH]; intros os; simpl; [done|].
  etrans; [|apply IH].
  destruct (decide (m' = m)) as [->|Hne].
  - rewrite lookup_insert_eq. simpl. by apply prefix_app_r.
  - by rewrite lookup_insert_ne.
Qed.

Lemma filter_absent_nil (l k : list string) :
  (∀ x, x ∈ k → x ∈ l) → filter (λ id, id ∉ l) k = [].
Proof.
  induction k as [|x k IH]; intros Hsub; [done|].
  rewrite filter_cons, decide_False.
  - apply IH. intros y Hy. apply Hsub. by right.
  - intros Hx. apply Hx, Hsub. left.
Qed.

Lemma new_ids_same cur m : new_ids cur cur m = [].
Proof. unfold new_ids. by apply filter_absent_nil. Qed.

Lemma adopt_all_same cur ms os m :
  default [] (adopt_all cur cur ms os !! m) = default [] (os !! m).
Proof.
  unfold adopt_all. revert os.
  induction ms as [|m' ms IH]; intros os; simpl; [done|].
  rewrite IH, new_ids_same, app_nil_r.
  destruct (decide (m' = m)) as [->|Hne].
  - by rewrite lookup_insert_eq.
  - by rewrite lookup_insert_ne.
Qed.

(** X11.  [store] never raises and never loses anything: every served
    market has a ledger entry afterwards, the entries of markets that are not
    served are as before, every list begins with the list it was (ids are
    only appended), and the previous snapshot [opened_orders] is left as it
    was. *)
Theorem store_keeps_and_materializes cfg dex b :
  result (store cfg dex) b = inr tt
  ∧ (∀ m, m ∈ markets cfg → is_Some (orders (after (store cfg dex) b) !! m))
  ∧ (∀ m, m ∉ markets cfg →
          orders (after (store cfg dex) b) !! m = orders b !! m)
  ∧ (∀ m, ledger_list m b `prefix_of` ledger_list m (after (store cfg dex) b))
  ∧ opened_orders (after (store cfg dex) b) = opened_orders b.
Proof.
  unfold result, after, ledger_list. fold (run (store cfg dex) b).
  rewrite store_run_disk. simpl.
  split; [done|]. split; [|split; [|split; [|done]]].
  - intros m Hm. apply adopt_all_is_Some. by left.
  - intros m Hm. by apply adopt_all_other.
  - intros m. apply adopt_all_prefix.
Qed.

(** X12.  Persistence of [store]: in safe mode the stored state is left
    as it was, after one call and after any number of calls; otherwise the
    stored state is the ledger as the call leaves it. *)
Theorem store_persistence cfg dex b :
  (safe_mode cfg = true →
     ∀ n, disk (Nat.iter n (after (store cfg dex)) b) = disk b)
  ∧ (safe_mode cfg = false →
     disk (after (store cfg dex) b) = Some (orders (after (store cfg dex) b))).
Proof.
  split; intros Hsafe.
  - induction n as [|n IH]; [done|]. simpl.
    unfold after at 1. fold (run (store cfg dex) (Nat.iter n (after (store cfg dex)) b)).
    rewrite store_run_disk, Hsafe. simpl. exact IH.
  - unfold after. fold (run (store cfg dex) b).
    by rewrite store_run_disk, Hsafe.
Qed.

(** X13.  [store] compares with [opened_orders], not with the ledger, and
    does not refresh [opened_orders]: a second call with the gateway
    unchanged adopts the same ids again.  With the served markets listed once
    each, [orders[m]] after two calls is the old list followed by the new ids
    twice, and [orderPlaced] is called again for each of them. *)
Theorem store_twice_adopts_twice cfg dex b m :
  NoDup (markets cfg) →
  m ∈ markets cfg →
  orders (after (store cfg dex) (after (store cfg dex) b)) !! m
  = Some (ledger_list m b
            ++ new_ids (opened_orders b) (returnOpenOrdersIds dex) m
            ++ new_ids (opened_orders b) (returnOpenOrdersIds dex) m)
  ∧ emitted (store cfg dex) (after (store cfg dex) b)
    = emitted (store cfg dex) b.
Proof.
  intros Hnd Hm.
  assert (Hev : ∀ b0, emitted (store cfg dex) b0
            = flat_map (λ m, OrderPlaced <$>
                          new_ids (opened_orders b0) (returnOpenOrdersIds dex) m)
                (markets cfg)).
  { intros b0. apply emitted_app. unfold after.
    fold (run (store cfg dex) b0). by rewrite store_run_disk. }
  rewrite !Hev. unfold after at 1 3.
  fold (run (store cfg dex) (after (store cfg dex) b)).
  rewrite store_run_disk. simpl. unfold after.
  fold (run (store cfg dex) b). rewrite store_run_disk. simpl.
  split; [|done].
  rewrite !adopt_all_served by done. simpl.
  unfold ledger_list. by rewrite <- app_assoc.
Qed.

(** ** More on reconciliation *)

Lemma loadMarket_run cfg dex notify b :
  run (loadMarket cfg dex notify) b
  = run (py_for (markets cfg)
           (loadMarket_market (returnOpenOrdersIds dex) notify))
      (set_opened_orders (returnOpenOrdersIds dex) b).
Proof. reflexivity. Qed.

Lemma fills_events_nil (notify : bool) :
  (if notify then OrderFilled <$> [] else []) = ([] : list Event).
Proof. by destruct notify. Qed.

Lemma loadMarket_scan_run cur notify m live fuel i b l :
  cur !! m = Some live →
  orders b !! m = Some l →
  py_for_live fuel i (ledger_list m) (loadMarket_order cur notify m) b
  = (inr tt,
     mkBot (<[m := (scan live fuel i l).1]> (orders b)) (opened_orders b)
           (events b
              ++ (if notify then OrderFilled <$> (scan live fuel i l).2 else []))
           (disk b)).
Proof.
  intros Hcur. revert i b l.
  induction fuel as [|fuel IH]; intros i b l Hl.
  - simpl. unfold py_ret.
    by rewrite insert_id, fills_events_nil, app_nil_r, bot_eta.
  - cbn [py_for_live scan]. unfold py_bind at 1. unfold py_get at 1.
    cbn beta iota. unfold ledger_list at 1. rewrite Hl. simpl.
    destruct (l !! i) as [x|] eqn:Hx.
    2:{ unfold py_ret. simpl.
        by rewrite insert_id, fills_events_nil, app_nil_r, bot_eta. }
    unfold py_bind at 1, loadMarket_order at 1, py_getitem.
    rewrite Hcur. unfold py_bind at 1, py_ret at 1. cbn beta iota.
    destruct (decide (x ∉ live)) as [Hgone|Hlive].
    + rewrite !bool_decide_eq_true_2 by done. unfold py_when at 1.
      destruct notify; py_unfold; simpl.
      * erewrite IH; [|simpl; by rewrite lookup_alter_eq, Hl]. simpl.
        by rewrite insert_alter_same, <- app_assoc.
      * erewrite IH; [|simpl; by rewrite lookup_alter_eq, Hl]. simpl.
        by rewrite insert_alter_same.
    + rewrite !bool_decide_eq_false_2 by done. unfold py_when, py_ret.
      by erewrite IH.
Qed.

Lemma loadMarket_market_run cur notify m b :
  loadMarket_market cur notify m b = reconcile_market cur notify m b.
Proof.
  unfold loadMarket_market, reconcile_market.
  unfold py_bind at 1. unfold py_get at 1. cbn beta iota.
  destruct (orders b !! m) as [l|] eqn:Hl.
  2:{ by rewrite bool_decide_eq_false_2 by (by intros [? ?]). }
  rewrite bool_decide_eq_true_2 by done. unfold py_when, py_for_list.
  unfold py_bind at 1. unfold py_get at 1. cbn beta iota.
  unfold ledger_list at 1. rewrite Hl. simpl.
  destruct (cur !! m) as [live|] eqn:Hcur.
  - by erewrite loadMarket_scan_run.
  - destruct l as [|x l]; [done|].
    cbn [length py_for_live]. unfold py_bind at 1. unfold py_get at 1.
    cbn beta iota. unfold ledger_list at 1. rewrite Hl. simpl.
    unfold py_bind, loadMarket_order, py_getitem. by rewrite Hcur.
Qed.

(** *** The walk over one list *)

Lemma scan_sublist live fuel i l : (scan live fuel i l).1 `sublist_of` l.
Proof.
  revert i l. induction fuel as [|fuel IH]; intros i l; simpl; [done|].
  destruct (l !! i) as [x|]; [|done].
  case_bool_decide; simpl; [|apply IH].
  etrans; [apply IH|apply remove_if_in_sublist].
Qed.

Lemma scan_fills_sound live fuel i l x :
  x ∈ (scan live fuel i l).2 → x ∈ l ∧ x ∉ live.
Proof.
  revert i l. induction fuel as [|fuel IH]; intros i l; simpl.
  - intros Hx. by destruct (not_elem_of_nil x).
  - destruct (l !! i) as [y|] eqn:Hy; simpl.
    2:{ intros Hx. by destruct (not_elem_of_nil x). }
    case_bool_decide as Hgone; simpl; [|apply IH].
    intros Hx. apply elem_of_cons in Hx as [->|Hx].
    + split; [|done]. by eapply list_elem_of_lookup_2.
    + apply IH in Hx as [Hx ?]. split; [|done].
      eapply elem_of_sublist; [done|apply remove_if_in_sublist].
Qed.

Lemma scan_live_kept live fuel i l x :
  x ∈ live → occurrences x (scan live fuel i l).1 = occurrences x l.
Proof.
  intros Hx. revert i l.
  induction fuel as [|fuel IH]; intros i l; simpl; [done|].
  destruct (l !! i) as [y|]; [|done].
  case_bool_decide as Hgone; simpl; [|apply IH].
  rewrite IH, remove_if_in_occurrences.
  rewrite decide_False; [lia|]. by intros ->.
Qed.

Lemma scan_in_sync live fuel i l :
  (∀ x, x ∈ l → x ∈ live) → scan live fuel i l = (l, []).
Proof.
  intros Hall. revert i.
  induction fuel as [|fuel IH]; intros i; simpl; [done|].
  destruct (l !! i) as [y|] eqn:Hy; [|done].
  rewrite bool_decide_eq_false_2; [apply IH|].
  intros Hgone. apply Hgone, Hall. by eapply list_elem_of_lookup_2.
Qed.

Lemma remove_if_in_middle x (pre rest : list string) :
  x ∉ pre → remove_if_in x (pre ++ x :: rest) = pre ++ rest.
Proof.
  intros Hpre. unfold remove_if_in.
  rewrite bool_decide_eq_true_2 by (apply elem_of_app; right; left).
  induction pre as [|y pre IH]; simpl.
  - by rewrite decide_True.
  - apply not_elem_of_cons in Hpre as [Hne Hpre].
    rewrite decide_False by done. by rewrite IH.
Qed.

Lemma scan_nodup live fuel pre rest :
  NoDup (pre ++ rest) →
  (length rest ≤ fuel)%nat →
  scan live fuel (length pre) (pre ++ rest)
  = (pre ++ skip_keep live rest, skip_fills live rest).
Proof.
  revert pre rest. induction fuel as [|fuel IH]; intros pre rest Hnd Hlen.
  - destruct rest; simpl in *; [done|lia].
  - destruct rest as [|x rest]; simpl.
    { by rewrite lookup_ge_None_2 by (rewrite length_app; simpl; lia). }
    rewrite list_lookup_middle by done.
    assert (Hx : x ∉ pre).
    { apply NoDup_app in Hnd as (_ & Hdisj & _). intros Hin.
      apply (Hdisj x Hin). left. }
    destruct (decide (x ∉ live)) as [Hgone|Hlive].
    + rewrite !bool_decide_eq_true_2 by done. simpl.
      rewrite remove_if_in_middle by done.
      assert (Hnd' : NoDup (pre ++ rest)).
      { eapply sublist_NoDup; [exact Hnd|].
        apply sublist_app; [done|by apply sublist_cons]. }
      destruct rest as [|y rest].
      * rewrite app_nil_r. destruct fuel; simpl;
          [done|by rewrite lookup_ge_None_2 by lia].
      * replace (pre ++ y :: rest) with ((pre ++ [y]) ++ rest)
          by (by rewrite <- app_assoc).
        replace (S (length pre)) with (length (pre ++ [y]))
          by (rewrite length_app; simpl; lia).
        rewrite IH.
        -- by rewrite <- app_assoc.
        -- by rewrite <- app_assoc.
        -- simpl in Hlen. lia.
    + rewrite !bool_decide_eq_false_2 by done.
      replace (pre ++ x :: rest) with ((pre ++ [x]) ++ rest)
        by (by rewrite <- app_assoc).
      replace (S (length pre)) with (length (pre ++ [x]))
        by (rewrite length_app; simpl; lia).
      rewrite IH.
      * by rewrite <- app_assoc.
      * by rewrite <- app_assoc.
      * simpl in Hlen. lia.
Qed.

Lemma skip_apart live l :
  fills_apart live l →
  skip_keep live l = filter (λ x, x ∈ live) l
  ∧ skip_fills live l = filter (λ x, x ∉ live) l.
Proof.
  assert (Hn : ∀ n l, (length l ≤ n)%nat → fills_apart live l →
                 skip_keep live l = filter (λ x, x ∈ live) l
                 ∧ skip_fills live l = filter (λ x, x ∉ live) l).
  { clear l. induction n as [|n IH]; intros l Hlen Hap.
    - destruct l; simpl in *; [done|lia].
    - destruct l as [|x r]; [done|]. simpl in Hlen. destruct Hap as [Hx Hr].
      cbn [skip_keep skip_fills]. rewrite !filter_cons.
      destruct (decide (x ∉ live)) as [Hgone|Hlive].
      + rewrite bool_decide_eq_true_2, decide_False by done.
        destruct r as [|y r']; [done|].
        specialize (Hx Hgone). destruct Hr as [_ Hr'].
        destruct (IH r') as [Hk Hf]; [simpl in Hlen; lia|done|].
        rewrite !filter_cons, decide_True, decide_False by (done || tauto).
        by rewrite Hk, Hf.
      + rewrite bool_decide_eq_false_2 by done.
        assert (x ∈ live) by (by destruct (decide (x ∈ live))).
        rewrite decide_True by done.
        destruct (IH r) as [Hk Hf]; [lia|done|]. by rewrite Hk, Hf. }
  by apply (Hn (length l)).
Qed.

(** *** The whole call *)

Lemma preserves_for_in {A} (P : Bot → Prop) (l : list A) body :
  (∀ x, x ∈ l → preserves P (body x)) → preserves P (py_for l body).
Proof.
  induction l as [|x l IH]; intros Hbody; simpl; [apply preserves_ret|].
  apply preserves_bind; [apply Hbody; left|]. intros _.
  apply IH. intros y Hy. apply Hbody. by right.
Qed.

Lemma reconcile_market_cases cur notify m b :
  (reconcile_market cur notify m b).2 = b
  ∨ ∃ l live,
      orders b !! m = Some l ∧ cur !! m = Some live
      ∧ (reconcile_market cur notify m b).2
        = mkBot (<[m := (scan live (length l) 0 l).1]> (orders b))
                (opened_orders b)
                (events b
                   ++ (if notify
                       then OrderFilled <$> (scan live (length l) 0 l).2
                       else []))
                (disk b).
Proof.
  unfold reconcile_market.
  destruct (orders b !! m) as [l|] eqn:Hl; [|by left].
  destruct (cur !! m) as [live|] eqn:Hcur.
  - right. by exists l, live.
  - left. by destruct l.
Qed.

Lemma reconciled_refl cfg cur notify b :
  opened_orders b = cur → reconciled cfg cur notify b b.
Proof.
  intros Ho. repeat split; try done.
  exists []. by rewrite app_nil_r.
Qed.

Lemma reconciled_step cfg cur notify b b' m :
  m ∈ markets cfg →
  reconciled cfg cur notify b b' →
  reconciled cfg cur notify b (reconcile_market cur notify m b').2.
Proof.
  intros Hm Hrec.
  destruct (reconcile_market_cases cur notify m b')
    as [->|(l & live & Hl & Hcur & ->)]; [done|].
  destruct Hrec as (Ho & Hd & Hout & Hsub & Hkeys & Hocc & tr & Htr & Hfills).
  assert (Hlist : ∀ m', ledger_list m'
                    (mkBot (<[m := (scan live (length l) 0 l).1]> (orders b'))
                       (opened_orders b')
                       (events b'
                          ++ (if notify
                              then OrderFilled <$> (scan live (length l) 0 l).2
                              else []))
                       (disk b'))
                  = if decide (m = m') then (scan live (length l) 0 l).1
                    else ledger_list m' b').
  { intros m'. unfold ledger_list. simpl. destruct (decide (m = m')) as [->|Hne].
    - by rewrite lookup_insert_eq.
    - by rewrite lookup_insert_ne. }
  assert (Hl' : ledger_list m b' = l) by (unfold ledger_list; by rewrite Hl).
  split; [done|]. split; [done|]. split; [|split; [|split; [|split]]].
  - intros m' Hm'. simpl. rewrite lookup_insert_ne; [by apply Hout|].
    by intros ->.
  - intros m'. rewrite Hlist. destruct (decide (m = m')) as [<-|Hne]; [|done].
    etrans; [apply scan_sublist|]. rewrite <- Hl'. apply Hsub.
  - intros m'. simpl. rewrite <- Hkeys.
    destruct (decide (m = m')) as [<-|Hne].
    + rewrite lookup_insert_eq, Hl. split; by eexists.
    + by rewrite lookup_insert_ne.
  - intros m' x Hx. rewrite Hlist.
    destruct (decide (m = m')) as [<-|Hne]; [|by apply Hocc].
    rewrite scan_live_kept; [rewrite <- Hl'; by apply Hocc|].
    unfold live_ids in Hx. by rewrite Hcur in Hx.
  - exists (tr ++ (if notify then OrderFilled <$> (scan live (length l) 0 l).2
                   else [])).
    simpl. split; [by rewrite Htr, <- app_assoc|].
    apply Forall_app. split; [done|].
    destruct notify; [|done].
    apply Forall_fmap, Forall_forall. intros id Hid.
    apply scan_fills_sound in Hid as [Hid Hgone].
    exists id, m, live. repeat split; try done.
    eapply elem_of_sublist; [|apply Hsub]. by rewrite Hl'.
Qed.

Lemma loadMarket_reconciled cfg dex notify b :
  reconciled cfg (returnOpenOrdersIds dex) notify b
    (after (loadMarket cfg dex notify) b).
Proof.
  unfold after. fold (run (loadMarket cfg dex notify) b).
  rewrite loadMarket_run.
  apply (preserves_for_in
           (λ b', reconciled cfg (returnOpenOrdersIds dex) notify b b')
           (markets cfg) (loadMarket_market (returnOpenOrdersIds dex) notify)).
  - intros m Hm b' Hb'. unfold after. rewrite loadMarket_market_run.
    by apply reconciled_step.
  - repeat split; try done. exists []. simpl. by rewrite app_nil_r.
Qed.

(** X14.  [loadMarket] only removes, and never a live id.  Whether it
    returns or raises: every market list it leaves is a sublist of the list
    it found (same order, nothing added), an id that the gateway lists as
    live for a market keeps all its occurrences in that market's list, no
    market key is added or dropped, the lists of markets that are not served
    are as before, [opened_orders] is the gateway's id listing and the
    stored state is untouched. *)
Theorem loadMarket_only_removes cfg dex notify b :
  (∀ m, ledger_list m (after (loadMarket cfg dex notify) b)
        `sublist_of` ledger_list m b)
  ∧ (∀ m x, x ∈ live_ids (returnOpenOrdersIds dex) m →
            occurrences x (ledger_list m (after (loadMarket cfg dex notify) b))
            = occurrences x (ledger_list m b))
  ∧ (∀ m, is_Some (orders (after (loadMarket cfg dex notify) b) !! m)
          ↔ is_Some (orders b !! m))
  ∧ (∀ m, m ∉ markets cfg →
          orders (after (loadMarket cfg dex notify) b) !! m = orders b !! m)
  ∧ opened_orders (after (loadMarket cfg dex notify) b) = returnOpenOrdersIds dex
  ∧ disk (after (loadMarket cfg dex notify) b) = disk b.
Proof.
  destruct (loadMarket_reconciled cfg dex notify b)
    as (Ho & Hd & Hout & Hsub & Hkeys & Hocc & _).
  done.
Qed.

(** X15.  [loadMarket] announces no fill that is not one: every event it
    adds is an [orderFilled(id)] for an id that the ledger recorded, before
    the call, under a served market whose key is in the gateway's id listing
    without that id; with [notify] off it adds no event. *)
Theorem loadMarket_fills_sound cfg dex notify b :
  Forall (fill_ok cfg (returnOpenOrdersIds dex) notify b)
    (emitted (loadMarket cfg dex notify) b)
  ∧ (notify = false → emitted (loadMarket cfg dex notify) b = []).
Proof.
  destruct (loadMarket_reconciled cfg dex notify b)
    as (_ & _ & _ & _ & _ & _ & tr & Htr & Hfills).
  rewrite (emitted_app _ _ _ Htr). split; [done|].
  intros ->. destruct tr as [|e tr]; [done|].
  apply Forall_cons in Hfills as [(? & ? & ? & _ & ? & _) _]. done.
Qed.

Lemma live_ids_elem_of cur m x :
  x ∈ live_ids cur m ↔ ∃ live, cur !! m = Some live ∧ x ∈ live.
Proof.
  unfold live_ids. destruct (cur !! m) as [live|]; simpl.
  - split; [by exists live|]. by intros (? & [= <-] & ?).
  - split; [|by intros (? & ? & _)].
    intros Hx. by destruct (not_elem_of_nil x).
Qed.

Lemma reconcile_market_in_sync cur notify m b :
  (∀ x, x ∈ ledger_list m b → x ∈ live_ids cur m) →
  reconcile_market cur notify m b = (inr tt, b).
Proof.
  unfold reconcile_market, ledger_list, live_ids. intros Hsync.
  destruct (orders b !! m) as [l|] eqn:Hl; [|done]. simpl in Hsync.
  destruct (cur !! m) as [live|]; simpl in Hsync.
  - rewrite scan_in_sync by done. simpl.
    by rewrite insert_id, fills_events_nil, app_nil_r, bot_eta.
  - destruct l as [|x l]; [done|].
    destruct (not_elem_of_nil x). apply Hsync. left.
Qed.

Lemma loadMarket_loop_in_sync cur notify ms b :
  (∀ m, m ∈ ms → ∀ x, x ∈ ledger_list m b → x ∈ live_ids cur m) →
  py_for ms (loadMarket_market cur notify) b = (inr tt, b).
Proof.
  induction ms as [|m ms IH]; intros Hsync; simpl; [done|].
  unfold py_bind. rewrite loadMarket_market_run, reconcile_market_in_sync.
  - apply IH. intros m' Hm'. apply Hsync. by right.
  - apply Hsync. left.
Qed.

(** X16.  A ledger in step with the gateway: when every id recorded under
    a served market is among the live ids the gateway lists for that market,
    [loadMarket] returns normally, removes nothing, announces nothing, and
    only refreshes [opened_orders]. *)
Theorem loadMarket_in_sync cfg dex notify b :
  (∀ m, m ∈ markets cfg →
        ∀ x, x ∈ ledger_list m b → x ∈ live_ids (returnOpenOrdersIds dex) m) →
  run (loadMarket cfg dex notify) b
  = (inr tt, set_opened_orders (returnOpenOrdersIds dex) b).
Proof.
  intros Hsync. rewrite loadMarket_run. by apply loadMarket_loop_in_sync.
Qed.

Lemma reconcile_market_frame cur notify m m' b :
  m ≠ m' →
  ledger_list m' (reconcile_market cur notify m b).2 = ledger_list m' b.
Proof.
  intros Hne.
  destruct (reconcile_market_cases cur notify m b)
    as [->|(l & live & _ & _ & ->)]; [done|].
  unfold ledger_list. simpl. by rewrite lookup_insert_ne.
Qed.

Lemma reconcile_market_result cur notify m b :
  (reconcile_market cur notify m b).1
  = if decide (ledger_list m b ≠ [] ∧ cur !! m = None)
    then inl (KeyError m) else inr tt.
Proof.
  unfold reconcile_market, ledger_list.
  destruct (orders b !! m) as [[|x l]|], (cur !! m) as [live|];
    simpl; try done; try case_decide as H; try done;
    first [ by destruct H | exfalso; by apply H ].
Qed.

Lemma loadMarket_loop_result cur notify ms b :
  ((py_for ms (loadMarket_market cur notify) b).1 = inr tt
   ↔ ∀ m, m ∈ ms → ledger_list m b ≠ [] → is_Some (cur !! m))
  ∧ ∀ e, (py_for ms (loadMarket_market cur notify) b).1 = inl e →
         ∃ k, e = KeyError k ∧ k ∈ ms ∧ ledger_list k b ≠ []
              ∧ cur !! k = None.
Proof.
  revert b. induction ms as [|m ms IH]; intros b.
  { simpl. split; [|done]. split; [|done].
    intros _ m Hm. by destruct (not_elem_of_nil m). }
  cbn [py_for]. unfold py_bind. rewrite loadMarket_market_run.
  pose proof (reconcile_market_result cur notify m b) as Hres.
  destruct (reconcile_market cur notify m b) as [[e|[]] b'] eqn:Hstep;
    simpl in Hres.
  - case_decide as Hbad; [|done]. injection Hres as ->.
    destruct Hbad as [Hne Hnone]. simpl. split.
    + split; [done|]. intros Hall.
      destruct (Hall m) as [? Hsome]; [left|done|congruence].
    + intros e [= <-]. exists m. repeat split; try done. left.
  - case_decide as Hbad; [done|]. clear Hres.
    assert (Hframe : ∀ m', m ≠ m' → ledger_list m' b' = ledger_list m' b).
    { intros m' Hne.
      rewrite <- (reconcile_market_frame cur notify m m' b Hne).
      by rewrite Hstep. }
    assert (Hshrink : ledger_list m b' ≠ [] → ledger_list m b ≠ []).
    { intros Hb' Hb. apply Hb'.
      destruct (reconcile_market_cases cur notify m b)
        as [Heq|(l & live & Hl & _ & Heq)]; rewrite Hstep in Heq;
        simpl in Heq; subst b'; [done|].
      unfold ledger_list in *. simpl. rewrite lookup_insert_eq. simpl.
      rewrite Hl in Hb. simpl in Hb. subst l. done. }
    destruct (IH b') as [IHok IHerr]. split.
    + rewrite IHok. split.
      * intros Hall m' Hm' Hne. apply elem_of_cons in Hm' as [->|Hm'].
        -- destruct (cur !! m) eqn:Hc; [done|]. destruct Hbad. done.
        -- destruct (decide (m = m')) as [<-|Hmm].
           ++ destruct (cur !! m) eqn:Hc; [done|]. destruct Hbad. done.
           ++ apply Hall; [done|]. by rewrite Hframe.
      * intros Hall m' Hm' Hne. destruct (decide (m = m')) as [<-|Hmm].
        -- apply Hall; [left|by apply Hshrink].
        -- apply Hall; [by right|]. by rewrite <- Hframe.
    + intros e He. destruct (IHerr e He) as (k & -> & Hk & Hne & Hnone).
      exists k. repeat split; try done; [by right|].
      destruct (decide (m = k)) as [<-|Hmk]; [by apply Hshrink|].
      by rewrite <- Hframe.
Qed.

(** X17.  When [loadMarket] raises: it returns normally exactly when every
    served market under which the ledger records at least one id has a key
    in the gateway's id listing; otherwise it raises [KeyError] for a served
    market that records an id and has no such key. *)
Theorem loadMarket_raises_iff cfg dex notify b :
  (result (loadMarket cfg dex notify) b = inr tt
   ↔ ∀ m, m ∈ markets cfg → ledger_list m b ≠ [] →
          is_Some (returnOpenOrdersIds dex !! m))
  ∧ ∀ e, result (loadMarket cfg dex notify) b = inl e →
         ∃ k, e = KeyError k ∧ k ∈ markets cfg ∧ ledger_list k b ≠ []
              ∧ returnOpenOrdersIds dex !! k = None.
Proof.
  unfold result. fold (run (loadMarket cfg dex notify) b).
  rewrite loadMarket_run. unfold run.
  apply (loadMarket_loop_result (returnOpenOrdersIds dex) notify (markets cfg)
           (set_opened_orders (returnOpenOrdersIds dex) b)).
Qed.

Lemma alter_same {V} (f : V → V) m (os : gmap string V) :
  (∀ v, os !! m = Some v → f v = v) → alter f m os = os.
Proof.
  intros Hf. apply map_eq. intros k. destruct (decide (m = k)) as [<-|Hne].
  - rewrite lookup_alter_eq. destruct (os !! m) as [v|] eqn:Hv; [|done].
    simpl. by rewrite Hf.
  - by rewrite lookup_alter_ne.
Qed.

Lemma insert_as_alter {V} (f : V → V) m v (os : gmap string V) :
  os !! m = Some v → <[m := f v]> os = alter f m os.
Proof.
  intros Hv. apply map_eq. intros k. destruct (decide (m = k)) as [<-|Hne].
  - by rewrite lookup_insert_eq, lookup_alter_eq, Hv.
  - by rewrite lookup_insert_ne, lookup_alter_ne.
Qed.

Lemma reconcile_market_nodup cur notify m b :
  NoDup (ledger_list m b) →
  (ledger_list m b ≠ [] → is_Some (cur !! m)) →
  reconcile_market cur notify m b
  = (inr tt,
     mkBot (alter (skip_keep (live_ids cur m)) m (orders b)) (opened_orders b)
           (events b
              ++ (if notify
                  then OrderFilled <$> skip_fills (live_ids cur m) (ledger_list m b)
                  else []))
           (disk b)).
Proof.
  unfold reconcile_market, ledger_list, live_ids. intros Hnd Hkey.
  destruct (orders b !! m) as [l|] eqn:Hl; simpl in *.
  - destruct (cur !! m) as [live|] eqn:Hcur; simpl.
    + pose proof (scan_nodup live (length l) [] l Hnd (le_n _)) as Hscan.
      simpl in Hscan. rewrite Hscan. simpl.
      by rewrite (insert_as_alter (skip_keep live)).
    + destruct l as [|x l]; [|by destruct Hkey].
      rewrite alter_same by (intros v Hv; rewrite Hl in Hv; by simplify_eq).
      by rewrite fills_events_nil, app_nil_r, bot_eta.
  - rewrite alter_same by (intros v Hv; congruence).
    by rewrite fills_events_nil, app_nil_r, bot_eta.
Qed.

Lemma flat_map_ext_in {A B} (f g : A → list B) l :
  (∀ x, x ∈ l → f x = g x) → flat_map f l = flat_map g l.
Proof.
  induction l as [|x l IH]; intros Hfg; simpl; [done|].
  rewrite Hfg by left. rewrite IH; [done|].
  intros y Hy. apply Hfg. by right.
Qed.

Lemma loadMarket_loop_nodup cur notify ms b :
  NoDup ms →
  (∀ m, m ∈ ms → NoDup (ledger_list m b)) →
  (∀ m, m ∈ ms → ledger_list m b ≠ [] → is_Some (cur !! m)) →
  py_for ms (loadMarket_market cur notify) b
  = (inr tt,
     mkBot (reconcile_all cur ms (orders b)) (opened_orders b)
           (events b
              ++ (if notify
                  then flat_map (λ m, OrderFilled <$>
                                   skip_fills (live_ids cur m) (ledger_list m b)) ms
                  else []))
           (disk b)).
Proof.
  intros Hms. revert b.
  induction Hms as [|m ms Hm Hms IH]; intros b Hnd Hkeys.
  { simpl. unfold py_ret. destruct notify; by rewrite app_nil_r, bot_eta. }
  cbn [py_for]. unfold py_bind.
  rewrite loadMarket_market_run, reconcile_market_nodup;
    [|apply Hnd; left|apply Hkeys; left].
  assert (Hframe : ∀ m', m' ∈ ms →
            ledger_list m'
              (mkBot (alter (skip_keep (live_ids cur m)) m (orders b))
                 (opened_orders b)
                 (events b
                    ++ (if notify
                        then OrderFilled <$>
                               skip_fills (live_ids cur m) (ledger_list m b)
                        else []))
                 (disk b))
            = ledger_list m' b).
  { intros m' Hm'. unfold ledger_list. simpl.
    rewrite lookup_alter_ne; [done|]. by intros ->. }
  rewrite IH.
  - simpl. unfold reconcile_all. simpl.
    rewrite (flat_map_ext_in _
               (λ m0, OrderFilled <$>
                        skip_fills (live_ids cur m0) (ledger_list m0 b)) ms)
      by (intros m' Hm'; by rewrite Hframe).
    destruct notify; by rewrite <- ?app_assoc, ?app_nil_r.
  - intros m' Hm'. rewrite Hframe by done. apply Hnd. by right.
  - intros m' Hm'. rewrite Hframe by done. apply Hkeys. by right.
Qed.

Lemma reconcile_all_other cur ms os m :
  m ∉ ms → reconcile_all cur ms os !! m = os !! m.
Proof.
  unfold reconcile_all. revert os.
  induction ms as [|m' ms IH]; intros os Hm; simpl; [done|].
  apply not_elem_of_cons in Hm as [Hne Hm].
  rewrite IH by done. by rewrite lookup_alter_ne.
Qed.

Lemma reconcile_all_served cur ms os m :
  NoDup ms → m ∈ ms →
  reconcile_all cur ms os !! m = skip_keep (live_ids cur m) <$> os !! m.
Proof.
  unfold reconcile_all. intros Hnd. revert os.
  induction Hnd as [|m' ms Hm' Hnd IH]; intros os Hm; simpl.
  - by destruct (not_elem_of_nil m).
  - apply elem_of_cons in Hm as [->|Hm].
    + fold (reconcile_all cur ms (alter (skip_keep (live_ids cur m')) m' os)).
      rewrite reconcile_all_other by done. by rewrite lookup_alter_eq.
    + rewrite IH by done. rewrite lookup_alter_ne; [done|]. by intros ->.
Qed.

Lemma loadMarket_run_nodup cfg dex notify b :
  NoDup (markets cfg) →
  unique_ids b →
  (∀ m, m ∈ markets cfg → ledger_list m b ≠ [] →
        is_Some (returnOpenOrdersIds dex !! m)) →
  run (loadMarket cfg dex notify) b
  = (inr tt,
     mkBot (reconcile_all (returnOpenOrdersIds dex) (markets cfg) (orders b))
           (returnOpenOrdersIds dex)
           (events b
              ++ (if notify
                  then flat_map
                         (λ m, OrderFilled <$>
                                 skip_fills (live_ids (returnOpenOrdersIds dex) m)
                                   (ledger_list m b))
                         (markets cfg)
                  else []))
           (disk b)).
Proof.
  intros Hms Hu Hkeys. rewrite loadMarket_run. unfold run.
  rewrite loadMarket_loop_nodup; [done|done| |done].
  intros m _. unfold ledger_list. simpl.
  destruct (orders b !! m) as [l|] eqn:Hl; simpl; [by eapply Hu|].
  apply NoDup_nil_2.
Qed.

(** X18.  What [loadMarket] does exactly on a duplicate-free ledger, with
    the served markets listed once each and a key in the gateway's listing
    for every served market that records an id.  It returns normally; each
    served market's list is walked once from the left: a live id is kept, an
    id that is gone is removed and announced, and the id that followed it is
    stepped over, kept without being looked at.  The [orderFilled] calls are
    the removed ids, market by market. *)
Theorem loadMarket_exact_on_unique cfg dex notify b :
  NoDup (markets cfg) →
  unique_ids b →
  (∀ m, m ∈ markets cfg → ledger_list m b ≠ [] →
        is_Some (returnOpenOrdersIds dex !! m)) →
  result (loadMarket cfg dex notify) b = inr tt
  ∧ (∀ m, m ∈ markets cfg →
          orders (after (loadMarket cfg dex notify) b) !! m
          = skip_keep (live_ids (returnOpenOrdersIds dex) m) <$> orders b !! m)
  ∧ emitted (loadMarket cfg dex notify) b
    = if notify
      then flat_map (λ m, OrderFilled <$>
                            skip_fills (live_ids (returnOpenOrdersIds dex) m)
                              (ledger_list m b))
             (markets cfg)
      else [].
Proof.
  intros Hms Hu Hkeys.
  pose proof (loadMarket_run_nodup cfg dex notify b Hms Hu Hkeys) as Hrun.
  unfold result, emitted, after. unfold run in Hrun. rewrite Hrun. simpl.
  split; [done|]. split.
  - intros m Hm. by apply reconcile_all_served.
  - by rewrite drop_app_length.
Qed.

(** X19.  When reconciliation is exact.  Under the conditions of X18, if
    in no served market an id that is gone is directly followed in the list
    by another id that is gone, then [loadMarket] keeps exactly the live ids
    of each served market, announces exactly the ids that are gone, once
    each and in list order, and a second call against the same snapshot
    changes nothing and announces nothing. *)
Theorem loadMarket_exact_when_fills_apart cfg dex notify b :
  NoDup (markets cfg) →
  unique_ids b →
  (∀ m, m ∈ markets cfg → ledger_list m b ≠ [] →
        is_Some (returnOpenOrdersIds dex !! m)) →
  (∀ m, m ∈ markets cfg →
        fills_apart (live_ids (returnOpenOrdersIds dex) m) (ledger_list m b)) →
  (∀ m, m ∈ markets cfg →
        orders (after (loadMarket cfg dex notify) b) !! m
        = filter (λ x, x ∈ live_ids (returnOpenOrdersIds dex) m) <$> orders b !! m)
  ∧ emitted (loadMarket cfg dex notify) b
    = (if notify
       then flat_map (λ m, OrderFilled <$>
                             filter (λ x, x ∉ live_ids (returnOpenOrdersIds dex) m)
                               (ledger_list m b))
              (markets cfg)
       else [])
  ∧ run (loadMarket cfg dex notify) (after (loadMarket cfg dex notify) b)
    = (inr tt, after (loadMarket cfg dex notify) b).
Proof.
  intros Hms Hu Hkeys Hapart.
  pose proof (loadMarket_run_nodup cfg dex notify b Hms Hu Hkeys) as Hrun.
  assert (Hlists : ∀ m, m ∈ markets cfg →
            orders (after (loadMarket cfg dex notify) b) !! m
            = filter (λ x, x ∈ live_ids (returnOpenOrdersIds dex) m)
                <$> orders b !! m).
  { intros m Hm. unfold after. unfold run in Hrun. rewrite Hrun. simpl.
    rewrite reconcile_all_served by done.
    destruct (orders b !! m) as [l|] eqn:Hl; [|done]. simpl. f_equal.
    specialize (Hapart m Hm). unfold ledger_list in Hapart.
    rewrite Hl in Hapart. simpl in Hapart.
    by destruct (skip_apart _ _ Hapart). }
  split; [done|]. split.
  - unfold emitted, after. unfold run in Hrun. rewrite Hrun. simpl.
    rewrite drop_app_length. destruct notify; [|done].
    apply flat_map_ext_in. intros m Hm.
    by destruct (skip_apart _ _ (Hapart m Hm)) as [_ ->].
  - rewrite loadMarket_run. unfold run at 1.
    rewrite loadMarket_loop_in_sync.
    + unfold after. unfold run in Hrun. by rewrite Hrun.
    + intros m Hm x. unfold ledger_list, set_opened_orders. simpl.
      rewrite Hlists by done.
      destruct (orders b !! m) as [l|]; simpl.
      * intros Hx. by apply list_elem_of_filter in Hx as [? _].
      * intros Hx. by destruct (not_elem_of_nil x).
Qed.

(** X20.  After [loadMarket], a [store] against the same gateway snapshot
    adopts nothing: no [orderPlaced] call, and every market list is what
    [loadMarket] left (a served market without an entry gets the empty
    list).  This holds whether [loadMarket] returned or raised. *)
Theorem store_after_loadMarket_adopts_nothing cfg dex notify b :
  emitted (store cfg dex) (after (loadMarket cfg dex notify) b) = []
  ∧ ∀ m, ledger_list m (after (store cfg dex) (after (loadMarket cfg dex notify) b))
         = ledger_list m (after (loadMarket cfg dex notify) b).
Proof.
  destruct (loadMarket_reconciled cfg dex notify b) as (Ho & _).
  split.
  - apply emitted_app. unfold after at 1.
    fold (run (store cfg dex) (after (loadMarket cfg dex notify) b)).
    rewrite store_run_disk, Ho. simpl. f_equal.
    induction (markets cfg) as [|m ms IH]; [done|].
    simpl. by rewrite new_ids_same, IH.
  - intros m. unfold after at 1.
    fold (run (store cfg dex) (after (loadMarket cfg dex notify) b)).
    rewrite store_run_disk, Ho. unfold ledger_list. simpl.
    apply adopt_all_same.
Qed.

(** ** [getMyOrders] *)

Lemma getMyOrders_fold (os acc : gmap string (list string)) ms m :
  foldl (λ myOrders market,
           match os !! market with
           | Some l => <[market := l]> myOrders
           | None => <[market := []]> myOrders
           end) acc ms !! m
  = if decide (m ∈ ms) then Some (default [] (os !! m)) else acc !! m.
Proof.
  revert acc. induction ms as [|m' ms IH]; intros acc; cbn [foldl].
  - destruct (decide (m ∈ [])) as [Hin|_]; [|done].
    by destruct (not_elem_of_nil m).
  - rewrite IH.
    destruct (decide (m ∈ ms)) as [Hin|Hout],
             (decide (m ∈ m' :: ms)) as [Hin'|Hout']; try done.
    + destruct Hout'. by right.
    + apply elem_of_cons in Hin' as [->|?]; [|done].
      destruct (os !! m'); by rewrite lookup_insert_eq.
    + assert (m' ≠ m) by (intros ->; apply Hout'; left).
      destruct (os !! m'); by rewrite lookup_insert_ne.
Qed.

(** X21.  [getMyOrders] returns a dictionary whose keys are exactly the
    served markets: a served market maps to the list the ledger records for
    it, to the empty list when the ledger has no entry; ledger entries of
    markets that are not served are left out; the bot is not changed (no
    entry is created in the ledger). *)
Theorem getMyOrders_lookup cfg b :
  ∃ myOrders,
    run (getMyOrders cfg) b = (inr myOrders, b)
    ∧ ∀ m, myOrders !! m
           = if decide (m ∈ markets cfg) then Some (ledger_list m b) else None.
Proof.
  eexists. split; [reflexivity|].
  intros m. rewrite getMyOrders_fold. unfold ledger_list.
  by rewrite lookup_empty.
Qed.

(** ** The scoped accessors *)

Lemma _set_lookup {V} market key (value : V) state m :
  _set market key value state !! m
  = if decide (market = m)
    then Some (<[key := value]> (default ∅ (state !! market)))
    else state !! m.
Proof.
  unfold _set. destruct (decide (market = m)) as [<-|Hne].
  - rewrite lookup_alter_eq. destruct (state !! market) as [d|] eqn:Hd.
    + rewrite bool_decide_eq_false_2 by done. by rewrite Hd.
    + rewrite bool_decide_eq_true_2 by done. by rewrite lookup_insert_eq.
  - rewrite lookup_alter_ne by done. case_bool_decide; [|done].
    by rewrite lookup_insert_ne.
Qed.

Lemma _get_value {V} market key (state : gmap string (gmap string V)) :
  (_get market key state).1 = state !! market ≫= (λ d, d !! key).
Proof. unfold _get. by destruct (state !! market). Qed.

Lemma _get_state_lookup {V} market key (state : gmap string (gmap string V)) m :
  (_get market key state).2 !! m
  = if decide (market = m) then Some (default ∅ (state !! market))
    else state !! m.
Proof.
  unfold _get. destruct (state !! market) as [d|] eqn:Hd; simpl.
  - destruct (decide (market = m)) as [<-|?]; [by rewrite Hd|done].
  - destruct (decide (market = m)) as [<-|?].
    + by rewrite lookup_insert_eq.
    + by rewrite lookup_insert_ne.
Qed.

(** X22.  [_set] then [_get]: reading the pair just written returns the
    value written and changes nothing more; reading any other market or key
    returns what it returned before the write.  The write creates the
    market's dictionary when it is missing and keeps its other keys when it
    is there. *)
Theorem _get_after_set {V} market key (value : V) state :
  _get market key (_set market key value state)
  = (Some value, _set market key value state)
  ∧ ∀ market' key',
      (market', key') ≠ (market, key) →
      (_get market' key' (_set market key value state)).1
      = (_get market' key' state).1.
Proof.
  split.
  - unfold _get. rewrite _set_lookup, decide_True by done.
    by rewrite lookup_insert_eq.
  - intros market' key' Hne. rewrite !_get_value, _set_lookup.
    destruct (decide (market = market')) as [<-|?]; [|done]. simpl.
    rewrite lookup_insert_ne by congruence.
    by destruct (state !! market).
Qed.

(** X23.  The lazy creation in [_get] shows in the state and nowhere else:
    a read of an unknown market leaves an empty dictionary under that
    market and touches no other entry, a read of a known market changes
    nothing; in both cases every later read, of any market and key, returns
    what it would have returned without it, and repeating the read returns
    the same value and changes nothing further. *)
Theorem _get_materializes {V} market key (state : gmap string (gmap string V)) :
  (_get market key state).2 !! market = Some (default ∅ (state !! market))
  ∧ (∀ m, m ≠ market → (_get market key state).2 !! m = state !! m)
  ∧ (is_Some (state !! market) → (_get market key state).2 = state)
  ∧ (∀ market' key',
       (_get market' key' (_get market key state).2).1
       = (_get market' key' state).1)
  ∧ _get market key (_get market key state).2 = _get market key state.
Proof.
  split; [|split; [|split; [|split]]].
  - by rewrite _get_state_lookup, decide_True.
  - intros m Hm. by rewrite _get_state_lookup, decide_False.
  - intros [d Hd]. unfold _get. by rewrite Hd.
  - intros market' key'. rewrite !_get_value, _get_state_lookup.
    destruct (decide (market = market')) as [<-|?]; [|done].
    by destruct (state !! market).
  - destruct (state !! market) as [d|] eqn:Hd.
    + unfold _get. rewrite Hd. simpl. by rewrite Hd.
    + unfold _get. rewrite Hd. simpl.
      by rewrite lookup_insert_eq, lookup_empty.
Qed.

(** ** The lifecycle register *)

Lemma increments_run n f :
  fsm (Nat.iter n incrementFSMCounter f) = fsm f
  ∧ fsm_cnt (Nat.iter n incrementFSMCounter f) = (fsm_cnt f + Z.of_nat n)%Z.
Proof.
  induction n as [|n [IHs IHc]]; simpl.
  - split; [done|lia].
  - split; [done|]. rewrite IHc. lia.
Qed.

(** X24.  The register counts ticks since the last change of state:
    after [changeFSM(s)] and [n] calls of [incrementFSMCounter], whatever
    the register held before, [getFSM] is [s] and [getFSMCounter] is [n];
    [resetFSMCounter] sets the counter to 0 and keeps the state name. *)
Theorem fsm_counts_since_change f state n :
  getFSM (Nat.iter n incrementFSMCounter (changeFSM state f)) = state
  ∧ getFSMCounter (Nat.iter n incrementFSMCounter (changeFSM state f))
    = Z.of_nat n
  ∧ getFSM (resetFSMCounter (Nat.iter n incrementFSMCounter (changeFSM state f)))
    = state
  ∧ getFSMCounter
      (resetFSMCounter (Nat.iter n incrementFSMCounter (changeFSM state f)))
    = 0%Z.
Proof.
  destruct (increments_run n (changeFSM state f)) as [Hs Hc].
  unfold getFSM, getFSMCounter, resetFSMCounter. simpl.
  rewrite Hs, Hc. simpl. repeat split; try done; lia.
Qed.

(** ** The further properties at sample inputs *)

Lemma usd_bts_keys :
  Forall (λ m, is_Some (returnOpenOrders dex_usd_bts !! m))
    (effective_markets served_usd_bts MNone).
Proof. apply Forall_singleton. by eexists. Qed.

Lemma usd_bts_long_keys m :
  is_Some (returnOpenOrders dex_usd_bts !! m) → (2 ≤ String.length m)%nat.
Proof.
  intros [os Hm]. simpl in Hm.
  apply lookup_singleton_Some in Hm as [<- _]. simpl. lia.
Qed.

(** X2 at a sample input: the bot owns [a] of the two open orders. *)
Lemma cancel_mine_selection_witness :
  result (cancel_mine String.eqb served_usd_bts dex_usd_bts MNone "both")
    (bot_with {[ "USD_BTS" := ["a"] ]})
  = inr (length (cancel_attempts
                   (emitted (cancel_mine String.eqb served_usd_bts dex_usd_bts
                               MNone "both")
                      (bot_with {[ "USD_BTS" := ["a"] ]}))))
  ∧ NoDup (cancel_attempts
             (emitted (cancel_mine String.eqb served_usd_bts dex_usd_bts
                         MNone "both")
                (bot_with {[ "USD_BTS" := ["a"] ]})))
  ∧ ∀ id,
      id ∈ cancel_attempts
             (emitted (cancel_mine String.eqb served_usd_bts dex_usd_bts
                         MNone "both")
                (bot_with {[ "USD_BTS" := ["a"] ]}))
      ↔ ∃ m os o mine, m ∈ effective_markets served_usd_bts MNone
                       ∧ returnOpenOrders dex_usd_bts !! m = Some os ∧ o ∈ os
                       ∧ orderNumber o = id
                       ∧ orders (bot_with {[ "USD_BTS" := ["a"] ]}) !! m = Some mine
                       ∧ id ∈ mine
                       ∧ side_matches String.eqb (o_type o) "both" = true.
Proof.
  exact (cancel_mine_selection String.eqb served_usd_bts dex_usd_bts MNone
           "both" (bot_with {[ "USD_BTS" := ["a"] ]}) usd_bts_keys).
Defined.

(** X3 at a sample input. *)
Lemma cancel_this_markets_as_cancel_all_witness :
  run (cancel_this_markets String.eqb served_usd_bts dex_usd_bts MNone "sell")
    (bot_with {[ "USD_BTS" := ["a"] ]})
  = run (cancel_all String.eqb served_usd_bts dex_usd_bts MNone "sell")
      (bot_with {[ "USD_BTS" := ["a"] ]}).
Proof.
  exact (cancel_this_markets_as_cancel_all String.eqb served_usd_bts
           dex_usd_bts MNone "sell" (bot_with {[ "USD_BTS" := ["a"] ]})
           usd_bts_keys).
Defined.

(** X5 at a sample input: [a] is cancelled by [cancel_mine], hence by
    [cancel_all]. *)
Lemma cancel_mine_within_cancel_all_witness :
  "a" ∈ cancel_attempts
          (emitted (cancel_all String.eqb served_usd_bts dex_usd_bts MNone "both")
             (bot_with {[ "USD_BTS" := ["a"] ]})).
Proof.
  apply (cancel_mine_within_cancel_all String.eqb served_usd_bts dex_usd_bts
           MNone "both" (bot_with {[ "USD_BTS" := ["a"] ]}) "a").
  assert (Hsent : cancel_attempts
                    (emitted (cancel_mine String.eqb served_usd_bts dex_usd_bts
                                MNone "both")
                       (bot_with {[ "USD_BTS" := ["a"] ]})) = ["a"])
    by (vm_compute; reflexivity).
  rewrite Hsent. left.
Defined.

(** X8 at a sample input. *)
Lemma cancel_all_string_markets_witness :
  run (cancel_all String.eqb served_usd_bts dex_usd_bts (MStr "buy") "sell")
    (bot_with {[ "USD_BTS" := ["a"] ]})
  = (inr 0, bot_with {[ "USD_BTS" := ["a"] ]})
  ∧ run (cancel_all_buy_orders String.eqb served_usd_bts dex_usd_bts)
      (bot_with {[ "USD_BTS" := ["a"] ]})
    = (inr 0, bot_with {[ "USD_BTS" := ["a"] ]})
  ∧ run (cancel_all_bid_orders String.eqb served_usd_bts dex_usd_bts)
      (bot_with {[ "USD_BTS" := ["a"] ]})
    = (inr 0, bot_with {[ "USD_BTS" := ["a"] ]})
  ∧ run (cancel_all_ask_orders String.eqb served_usd_bts dex_usd_bts)
      (bot_with {[ "USD_BTS" := ["a"] ]})
    = (inr 0, bot_with {[ "USD_BTS" := ["a"] ]}).
Proof.
  apply (cancel_all_string_markets String.eqb served_usd_bts dex_usd_bts
           "buy" "sell" (bot_with {[ "USD_BTS" := ["a"] ]})).
  - done.
  - apply usd_bts_long_keys.
Defined.

(** X9 at a sample input. *)
Lemma cancel_my_side_orders_raise_witness :
  run (cancel_my_sell_orders String.eqb served_usd_bts dex_usd_bts)
    (bot_with {[ "USD_BTS" := ["a"] ]})
  = (inl (KeyError "s"), bot_with {[ "USD_BTS" := ["a"] ]})
  ∧ run (cancel_my_buy_orders String.eqb served_usd_bts dex_usd_bts)
      (bot_with {[ "USD_BTS" := ["a"] ]})
    = (inl (KeyError "b"), bot_with {[ "USD_BTS" := ["a"] ]}).
Proof.
  apply (cancel_my_side_orders_raise String.eqb served_usd_bts dex_usd_bts
           (bot_with {[ "USD_BTS" := ["a"] ]})).
  apply usd_bts_long_keys.
Defined.

(** X10 at a sample input: the gateway raises for [a]. *)
Lemma cancel_single_failure_witness :
  (cancel dex_failing (λ id, id) "a" (bot_with {[ "M" := ["a"] ]})).1
  = inl (UnboundLocalError "cancel")
  ∧ orders (cancel dex_failing (λ id, id) "a" (bot_with {[ "M" := ["a"] ]})).2
    = orders (bot_with {[ "M" := ["a"] ]})
  ∧ opened_orders (cancel dex_failing (λ id, id) "a" (bot_with {[ "M" := ["a"] ]})).2
    = opened_orders (bot_with {[ "M" := ["a"] ]})
  ∧ disk (cancel dex_failing (λ id, id) "a" (bot_with {[ "M" := ["a"] ]})).2
    = disk (bot_with {[ "M" := ["a"] ]})
  ∧ events (cancel dex_failing (λ id, id) "a" (bot_with {[ "M" := ["a"] ]})).2
    = events (bot_with {[ "M" := ["a"] ]}) ++ [DexCancel "a"; LogCritical "a"]
  ∧ result (_cancel_set dex_failing {[ "a" ]}) (bot_with {[ "M" := ["a"] ]})
    = inr 1
  ∧ emitted (_cancel_set dex_failing {[ "a" ]}) (bot_with {[ "M" := ["a"] ]})
    = [DexCancel "a"; LogCritical "a"; OrderCanceled "a"].
Proof.
  exact (cancel_single_failure dex_failing (λ id, id) "a"
           (bot_with {[ "M" := ["a"] ]}) eq_refl).
Defined.

(** X13 at a sample input: an empty ledger, the order [d] open. *)
Lemma store_twice_adopts_twice_witness :
  orders (after (store served_M dex_d) (after (store served_M dex_d) (bot_with ∅)))
    !! "M"
  = Some ([] ++ ["d"] ++ ["d"])
  ∧ emitted (store served_M dex_d) (after (store served_M dex_d) (bot_with ∅))
    = emitted (store served_M dex_d) (bot_with ∅).
Proof.
  assert (Hnd : NoDup (markets served_M)) by apply NoDup_singleton.
  assert (Hm : "M" ∈ markets served_M) by (by apply list_elem_of_singleton).
  exact (store_twice_adopts_twice served_M dex_d (bot_with ∅) "M" Hnd Hm).
Defined.

(** X16 at a sample input: the ledger holds [a], the gateway lists [a]
    and [d]. *)
Lemma loadMarket_in_sync_witness :
  run (loadMarket served_M (dex_ids {[ "M" := ["a"; "d"] ]}) true)
    (bot_with {[ "M" := ["a"] ]})
  = (inr tt,
     set_opened_orders (returnOpenOrdersIds (dex_ids {[ "M" := ["a"; "d"] ]}))
       (bot_with {[ "M" := ["a"] ]})).
Proof.
  apply (loadMarket_in_sync served_M (dex_ids {[ "M" := ["a"; "d"] ]}) true
           (bot_with {[ "M" := ["a"] ]})).
  intros m Hm. apply list_elem_of_singleton in Hm as ->.
  change (ledger_list "M" (bot_with {[ "M" := ["a"] ]})) with ["a"].
  change (live_ids (returnOpenOrdersIds (dex_ids {[ "M" := ["a"; "d"] ]})) "M")
    with ["a"; "d"].
  intros x Hx. apply list_elem_of_singleton in Hx as ->. left.
Defined.

(** X18 at a sample input: [a] and [b] are both gone; [a] is removed and
    announced, [b] is stepped over. *)
Lemma loadMarket_exact_on_unique_witness :
  result (loadMarket served_M (dex_ids {[ "M" := [] ]}) true)
    (bot_with {[ "M" := ["a"; "b"] ]}) = inr tt
  ∧ (∀ m, m ∈ markets served_M →
          orders (after (loadMarket served_M (dex_ids {[ "M" := [] ]}) true)
                    (bot_with {[ "M" := ["a"; "b"] ]})) !! m
          = skip_keep (live_ids (returnOpenOrdersIds (dex_ids {[ "M" := [] ]})) m)
              <$> orders (bot_with {[ "M" := ["a"; "b"] ]}) !! m)
  ∧ emitted (loadMarket served_M (dex_ids {[ "M" := [] ]}) true)
      (bot_with {[ "M" := ["a"; "b"] ]})
    = [OrderFilled "a"].
Proof.
  assert (Hms : NoDup (markets served_M)) by apply NoDup_singleton.
  assert (Hu : unique_ids (bot_with {[ "M" := ["a"; "b"] ]})).
  { apply unique_ids_singleton. apply NoDup_ListNoDup.
    repeat constructor; simpl; intros H; intuition discriminate. }
  assert (Hkeys : ∀ m, m ∈ markets served_M →
            ledger_list m (bot_with {[ "M" := ["a"; "b"] ]}) ≠ [] →
            is_Some (returnOpenOrdersIds (dex_ids {[ "M" := [] ]}) !! m)).
  { intros m Hm _. apply list_elem_of_singleton in Hm as ->. by eexists. }
  exact (loadMarket_exact_on_unique served_M (dex_ids {[ "M" := [] ]}) true
           (bot_with {[ "M" := ["a"; "b"] ]}) Hms Hu Hkeys).
Defined.

(** X19 at the sample input of the specification: [b] is gone, between
    the live [a] and [c]. *)
Lemma loadMarket_exact_when_fills_apart_witness :
  (∀ m, m ∈ markets served_M →
        orders (after (loadMarket served_M (dex_ids {[ "M" := ["a"; "c"] ]}) true)
                  (bot_with {[ "M" := ["a"; "b"; "c"] ]})) !! m
        = filter (λ x, x ∈ live_ids
                             (returnOpenOrdersIds (dex_ids {[ "M" := ["a"; "c"] ]})) m)
            <$> orders (bot_with {[ "M" := ["a"; "b"; "c"] ]}) !! m)
  ∧ emitted (loadMarket served_M (dex_ids {[ "M" := ["a"; "c"] ]}) true)
      (bot_with {[ "M" := ["a"; "b"; "c"] ]})
    = [OrderFilled "b"]
  ∧ run (loadMarket served_M (dex_ids {[ "M" := ["a"; "c"] ]}) true)
      (after (loadMarket served_M (dex_ids {[ "M" := ["a"; "c"] ]}) true)
         (bot_with {[ "M" := ["a"; "b"; "c"] ]}))
    = (inr tt,
       after (loadMarket served_M (dex_ids {[ "M" := ["a"; "c"] ]}) true)
         (bot_with {[ "M" := ["a"; "b"; "c"] ]})).
Proof.
  assert (Hms : NoDup (markets served_M)) by apply NoDup_singleton.
  assert (Hu : unique_ids (bot_with {[ "M" := ["a"; "b"; "c"] ]})).
  { apply unique_ids_singleton. apply NoDup_ListNoDup.
    repeat constructor; simpl; intros H; intuition discriminate. }
  assert (Hkeys : ∀ m, m ∈ markets served_M →
            ledger_list m (bot_with {[ "M" := ["a"; "b"; "c"] ]}) ≠ [] →
            is_Some (returnOpenOrdersIds (dex_ids {[ "M" := ["a"; "c"] ]}) !! m)).
  { intros m Hm _. apply list_elem_of_singleton in Hm as ->. by eexists. }
  assert (Hapart : ∀ m, m ∈ markets served_M →
            fills_apart
              (live_ids (returnOpenOrdersIds (dex_ids {[ "M" := ["a"; "c"] ]})) m)
              (ledger_list m (bot_with {[ "M" := ["a"; "b"; "c"] ]}))).
  { intros m Hm. apply list_elem_of_singleton in Hm as ->.
    change (ledger_list "M" (bot_with {[ "M" := ["a"; "b"; "c"] ]}))
      with ["a"; "b"; "c"].
    change (live_ids (returnOpenOrdersIds (dex_ids {[ "M" := ["a"; "c"] ]})) "M")
      with ["a"; "c"].
    simpl. split; [intros Ha; destruct Ha; left|].
    split; [intros _; right; left|]. by split. }
  exact (loadMarket_exact_when_fills_apart served_M
           (dex_ids {[ "M" := ["a"; "c"] ]}) true
           (bot_with {[ "M" := ["a"; "b"; "c"] ]}) Hms Hu Hkeys Hapart).
Defined.
